(** * gcal-mcp: account resolution, credential access, envelope crypto and
    transactions

    An embedding of db.ts and of the three files that tools.ts holds (the
    tool table, calendar.ts and crypto.ts).

    Strings are [string] (sequences of bytes, the UTF-8 text that SQLite
    stores); buffers are [list byte]; JavaScript numbers that the code only
    uses as integers are [Z].  A rejected promise or thrown exception is the
    left summand of a result; the calls a function makes on its collaborators
    (SQL statements, the decrypt routine, the key-derivation primitive, the
    remote calendar service) are recorded in a trace, so that "without
    consulting", "before performing" and "exactly once" can be read off the
    result. *)

From Stdlib Require Import ZArith NArith Lia Bool Ascii.
From Stdlib.Strings Require Byte.
From stdpp Require Import base option list strings gmap sorting.

Open Scope Z_scope.

(** ** JavaScript values *)

Module Js.

(** A thrown value.  Every [throw new Error(msg)] of the sources builds an
    object with [name = "Error"], the message, and no [code]; errors raised
    by Node's [crypto] also carry a [code]. *)
Record JsError := { name : string; message : string; code : option string }.

Definition Error (msg : string) : JsError :=
  {| name := "Error"; message := msg; code := None |}.

(** The string whose bytes are the given numbers. *)
Definition bytes (l : list Z) : string :=
  String.string_of_list_ascii ((fun z => ascii_of_N (Z.to_N z)) <$> l).

(** The UTF-8 encodings of the characters that [String.prototype.trim]
    strips: TAB, LF, VT, FF, CR, SPACE, U+00A0, U+1680, U+2000 to U+200A,
    U+2028, U+2029, U+202F, U+205F, U+3000 and U+FEFF. *)
Definition white_space : list string :=
  [bytes [9]; bytes [10]; bytes [11]; bytes [12]; bytes [13]; bytes [32];
   bytes [194; 160]; bytes [225; 154; 128]]
  ++ ((fun b => bytes [226; 128; b]) <$>
        [128; 129; 130; 131; 132; 133; 134; 135; 136; 137; 138])
  ++ [bytes [226; 128; 168]; bytes [226; 128; 169]; bytes [226; 128; 175];
      bytes [226; 129; 159]; bytes [227; 128; 128]; bytes [239; 187; 191]].

(** [s] without the prefix [t], when it starts with [t]. *)
Fixpoint strip_prefix (t s : string) : option string :=
  match t, s with
  | EmptyString, _ => Some s
  | String _ _, EmptyString => None
  | String a t', String b s' => if decide (a = b) then strip_prefix t' s' else None
  end.

(** [s] without its first character, when that is one of [tokens]. *)
Fixpoint strip_one (tokens : list string) (s : string) : option string :=
  match tokens with
  | [] => None
  | t :: tokens' =>
      match strip_prefix t s with
      | Some rest => Some rest
      | None => strip_one tokens' s
      end
  end.

Fixpoint strip_all (fuel : nat) (tokens : list string) (s : string) : string :=
  match fuel with
  | O => s
  | S fuel' =>
      match strip_one tokens s with
      | Some rest => strip_all fuel' tokens rest
      | None => s
      end
  end.

(** [String.prototype.trimStart], [trimEnd] and [trim]; the end is trimmed
    on the reversed string against the reversed encodings. *)
Definition trimStart (s : string) : string :=
  strip_all (String.length s) white_space s.

Definition trimEnd (s : string) : string :=
  String.rev (strip_all (String.length s) (String.rev <$> white_space) (String.rev s)).

Definition trim (s : string) : string := trimEnd (trimStart s).

(** ASCII case mapping, shared by [String.prototype.toLowerCase], SQLite's
    [LOWER] and the [/i] flag of a regular expression whose pattern is ASCII.
    JavaScript also maps letters outside ASCII; the byte model leaves their
    encodings as they are, so [toLowerCase] is exact on ASCII text, and the
    theorems that depend on what it returns are stated for ASCII text
    ([is_ascii] below). *)
Definition lower_ascii (c : ascii) : ascii :=
  let n := N_of_ascii c in
  if ((65 <=? n) && (n <=? 90))%N then ascii_of_N (n + 32) else c.

Fixpoint toLowerCase (s : string) : string :=
  match s with
  | EmptyString => EmptyString
  | String c s' => String (lower_ascii c) (toLowerCase s')
  end.

(** ASCII text: every byte is between 1 and 127.  On such strings the
    case mapping above is that of JavaScript, and a byte is a character of
    SQLite (whose text functions stop at a zero byte). *)
Definition is_ascii (s : string) : bool :=
  forallb (fun c => (0 <? N_of_ascii c)%N && (N_of_ascii c <? 128)%N)
    (String.list_ascii_of_string s).

(** Truthiness of a string: [!s] holds exactly for the empty string. *)
Definition truthy (s : string) : bool :=
  match s with EmptyString => false | String _ _ => true end.

(** [if (x)] on a nullable text value: the value when it is a non-empty
    string, nothing for [null] and for the empty string. *)
Definition if_truthy (x : option string) : option string :=
  match x with
  | Some s => if truthy s then Some s else None
  | None => None
  end.

(** [s.startsWith(p)] and [s.includes(p)]. *)
Fixpoint startsWith (p s : string) : bool :=
  match p, s with
  | EmptyString, _ => true
  | String _ _, EmptyString => false
  | String a p', String b s' => if decide (a = b) then startsWith p' s' else false
  end.

Fixpoint includes (p s : string) : bool :=
  startsWith p s ||
  match s with
  | EmptyString => false
  | String _ s' => includes p s'
  end.

(** [/pat/i.test(s)] for a pattern [pat] that is a plain ASCII literal: a
    substring test up to ASCII case. *)
Definition test_i (pat s : string) : bool :=
  includes (toLowerCase pat) (toLowerCase s).

(** Numbers are doubles.  [double z] is the double nearest to the integer
    [z], ties going to the even significand; integers of magnitude up to
    [2^53] are doubles themselves.  (Overflow to [Infinity], beyond
    [2^1024], is left out.) *)
Definition double (z : Z) : Z :=
  let a := Z.abs z in
  if a <=? 2 ^ 53 then z
  else
    let ulp := 2 ^ (Z.log2 a - 52) in
    let q := a / ulp in
    let rem := a mod ulp in
    let q' := if 2 * rem <? ulp then q
              else if ulp <? 2 * rem then q + 1
              else if Z.even q then q else q + 1 in
    Z.sgn z * (q' * ulp).

(** [x * y] on numbers that hold integers. *)
Definition mul (x y : Z) : Z := double (x * y).

(** The double quote, for messages that quote a name. *)
Definition quote : string := String "034"%char "".

(** [Array.prototype.join]. *)
Fixpoint join (sep : string) (l : list string) : string :=
  match l with
  | [] => ""
  | [x] => x
  | x :: l' => x +:+ sep +:+ join sep l'
  end.

End Js.

(** ** SQLite operators used by the queries *)

Module Sqlite.

(** [LOWER(x)]: the built-in folds ASCII letters only. *)
Definition LOWER : string -> string := Js.toLowerCase.

(** [COALESCE(x, '')] on a nullable text column. *)
Definition COALESCE (x : option string) (d : string) : string := default d x.

(** [x LIKE pattern] without an ESCAPE clause: [%] matches any run of
    characters (also the empty one), [_] matches exactly one character, any
    other character matches itself up to ASCII case.  A character is taken
    to be one byte, which it is in ASCII text; SQLite lets [_] consume a
    whole UTF-8 sequence, and reads its operands up to the first zero
    byte. *)
Fixpoint LIKE_from (p : string) : string -> bool :=
  match p with
  | EmptyString => fun s => match s with EmptyString => true | _ => false end
  | String c p' =>
      if decide (c = "%"%char) then
        fix any (s : string) : bool :=
          LIKE_from p' s ||
          match s with EmptyString => false | String _ s' => any s' end
      else if decide (c = "_"%char) then
        fun s => match s with EmptyString => false | String _ s' => LIKE_from p' s' end
      else
        fun s => match s with
                 | EmptyString => false
                 | String d s' =>
                     if decide (Js.lower_ascii c = Js.lower_ascii d)
                     then LIKE_from p' s' else false
                 end
  end.

Definition LIKE (x pattern : string) : bool := LIKE_from pattern x.

(** [ORDER BY col] under the default BINARY collation: ascending in the
    byte-wise order of the text. *)
Definition ORDER_BY {A} (col : A -> string) (rows : list A) : list A :=
  merge_sort (fun a b => String.le (col a) (col b)) rows.

End Sqlite.

(** ** Results with a trace of collaborator calls *)

Module Eff.

(** A computation that has finished: the calls it made, in order, and
    either the thrown error or the returned value. *)
Definition M (Ev A : Type) : Type := (list Ev * (Js.JsError + A))%type.

Definition ret {Ev A} (a : A) : M Ev A := ([], inr a).
Definition throw {Ev A} (e : Js.JsError) : M Ev A := ([], inl e).

Definition bind {Ev A B} (m : M Ev A) (k : A -> M Ev B) : M Ev B :=
  match m with
  | (t, inl e) => (t, inl e)
  | (t, inr a) => (t ++ fst (k a), snd (k a))
  end.

(** [try { m } catch (e) { h e }]. *)
Definition catch {Ev A} (m : M Ev A) (h : Js.JsError -> M Ev A) : M Ev A :=
  match m with
  | (t, inl e) => (t ++ fst (h e), snd (h e))
  | (t, inr a) => (t, inr a)
  end.

Definition trace {Ev A} (m : M Ev A) : list Ev := fst m.

#[global] Instance M_ret {Ev} : MRet (M Ev) := fun _ a => ret a.
#[global] Instance M_bind {Ev} : MBind (M Ev) := fun _ _ k m => bind m k.

End Eff.

(** ** crypto.ts *)

Module Crypto.

Abbreviation byte := Byte.byte.

#[global] Instance byte_eq_dec : EqDecision byte := Byte.byte_eq_dec.

Abbreviation Buffer := (list byte).

(** *** Node's [crypto] module

    [crypto.scrypt], [crypto.randomBytes] and the ['aes-256-gcm'] cipher
    objects are not code of the repository.  The cipher objects are modelled
    after GCM as NIST SP 800-38D defines it (counter-mode encryption, GHASH
    authentication), with the AES-256 block function left as the parameter
    [aes256]; 128-bit blocks are integers in big-endian reading. *)

Definition Z_of_byte (b : byte) : Z := Z.of_N (Byte.to_N b).

Definition byte_of_Z (z : Z) : byte :=
  default Byte.x00 (Byte.of_N (Z.to_N (z mod 256))).

Definition byte_xor (a b : byte) : byte :=
  byte_of_Z (Z.lxor (Z_of_byte a) (Z_of_byte b)).

(** Big-endian value of a byte string, and the [n]-byte big-endian
    representation of (the low [8n] bits of) an integer. *)
Definition be_Z (bs : Buffer) : Z :=
  fold_left (fun acc b => acc * 256 + Z_of_byte b) bs 0.

Definition be_bytes (n : nat) (z : Z) : Buffer :=
  map (fun i : nat => byte_of_Z (Z.shiftr z (8 * Z.of_nat (n - 1 - i)))) (seq 0 n).

(** The [i]-th 16-byte block of [bs], the last one padded with zero bytes. *)
Definition block_at (bs : Buffer) (i : nat) : Z :=
  be_Z (map (fun j : nat => nth (16 * i + j) bs Byte.x00) (seq 0 16)).

Definition blocks (bs : Buffer) : list Z :=
  map (block_at bs) (seq 0 ((length bs + 15) / 16)).

(** Multiplication in GF(2^128) (SP 800-38D, algorithm 1): bit 0 of a block
    is its most significant bit, [R = 11100001 || 0^120]. *)
Definition gf_R : Z := Z.shiftl 225 120.

Definition gf_step (x : Z) (st : Z * Z) (i : nat) : Z * Z :=
  let z := if Z.testbit x (127 - Z.of_nat i) then Z.lxor (fst st) (snd st) else fst st in
  let v := if Z.testbit (snd st) 0
           then Z.lxor (Z.shiftr (snd st) 1) gf_R
           else Z.shiftr (snd st) 1 in
  (z, v).

Definition gf_mul (x y : Z) : Z := fst (fold_left (gf_step x) (seq 0 128) (0, y)).

(** GHASH (algorithm 2) and the hashed string of GCM: padded associated
    data, padded ciphertext, and the two 64-bit bit lengths. *)
Definition GHASH (H : Z) (xs : list Z) : Z :=
  fold_left (fun y x => gf_mul (Z.lxor y x) H) xs 0.

Definition len_block (a c : Buffer) : Z :=
  Z.shiftl ((8 * Z.of_nat (length a)) mod 2 ^ 64) 64
  + (8 * Z.of_nat (length c)) mod 2 ^ 64.

(** Counter blocks: [ctr J0 i] is [inc32] applied [i] times to [J0]. *)
Definition ctr (J0 : Z) (i : nat) : Z :=
  J0 - J0 mod 2 ^ 32 + (J0 mod 2 ^ 32 + Z.of_nat i) mod 2 ^ 32.

Section Gcm.

Variable aes256 : Buffer -> Z -> Z.

Definition hash_key (key : Buffer) : Z := aes256 key 0.

(** The pre-counter block: [IV || 0^31 || 1] for a 96-bit IV, a GHASH of the
    IV otherwise. *)
Definition J0 (key iv : Buffer) : Z :=
  if decide (length iv = 12%nat) then be_Z iv * 2 ^ 32 + 1
  else GHASH (hash_key key) (blocks iv ++ [(8 * Z.of_nat (length iv)) mod 2 ^ 64]).

(** Byte [n] of the key stream that encrypts the message (GCTR started at
    [inc32 J0]). *)
Definition keystream_byte (key iv : Buffer) (n : nat) : byte :=
  nth (n mod 16) (be_bytes 16 (aes256 key (ctr (J0 key iv) (1 + n / 16)))) Byte.x00.

Definition gctr (key iv : Buffer) (off : nat) (data : Buffer) : Buffer :=
  imap (fun i b => byte_xor b (keystream_byte key iv (off + i))) data.

Definition gcm_tag (key iv aad ct : Buffer) : Buffer :=
  be_bytes 16
    (Z.lxor (GHASH (hash_key key) (blocks aad ++ blocks ct ++ [len_block aad ct]))
            (aes256 key (J0 key iv))).

(** [Cipher] and [Decipher] objects: what has been configured and the
    ciphertext seen so far. *)
Record Cipher := { c_key : Buffer; c_iv : Buffer; c_aad : Buffer; c_ct : Buffer }.

Record Decipher :=
  { d_key : Buffer; d_iv : Buffer; d_aad : Buffer; d_tag : option Buffer; d_ct : Buffer }.

Definition ERR_CRYPTO_INVALID_KEYLEN : Js.JsError :=
  {| Js.name := "RangeError"; Js.message := "Invalid key length";
     Js.code := Some "ERR_CRYPTO_INVALID_KEYLEN" |}.

Definition ERR_CRYPTO_INVALID_IV : Js.JsError :=
  {| Js.name := "TypeError"; Js.message := "Invalid initialization vector";
     Js.code := Some "ERR_CRYPTO_INVALID_IV" |}.

Definition ERR_CRYPTO_INVALID_AUTH_TAG : Js.JsError :=
  {| Js.name := "TypeError"; Js.message := "Invalid authentication tag length";
     Js.code := Some "ERR_CRYPTO_INVALID_AUTH_TAG" |}.

(** What [decipher.final()] throws when the tag does not verify. *)
Definition AuthenticationError : Js.JsError :=
  Js.Error "Unsupported state or unable to authenticate data".

(** The checks of [createCipheriv] and [createDecipheriv]: the IV is looked
    at before the key. *)
Definition check_key_iv (key iv : Buffer) : option Js.JsError :=
  if (length iv =? 0)%nat then Some ERR_CRYPTO_INVALID_IV
  else if negb (length key =? 32)%nat then Some ERR_CRYPTO_INVALID_KEYLEN
  else None.

(** [crypto.createCipheriv('aes-256-gcm', key, iv)] *)
Definition createCipheriv (key iv : Buffer) : Js.JsError + Cipher :=
  match check_key_iv key iv with
  | Some e => inl e
  | None => inr {| c_key := key; c_iv := iv; c_aad := []; c_ct := [] |}
  end.

Definition Cipher_setAAD (c : Cipher) (aad : Buffer) : Cipher :=
  {| c_key := c_key c; c_iv := c_iv c; c_aad := aad; c_ct := c_ct c |}.

(** [cipher.update(data)]: counter mode hands the ciphertext out at once. *)
Definition Cipher_update (c : Cipher) (data : Buffer) : Cipher * Buffer :=
  let out := gctr (c_key c) (c_iv c) (length (c_ct c)) data in
  ({| c_key := c_key c; c_iv := c_iv c; c_aad := c_aad c; c_ct := c_ct c ++ out |}, out).

Definition Cipher_final (c : Cipher) : Buffer := [].

Definition Cipher_getAuthTag (c : Cipher) : Buffer :=
  gcm_tag (c_key c) (c_iv c) (c_aad c) (c_ct c).

(** [crypto.createDecipheriv('aes-256-gcm', key, iv)] *)
Definition createDecipheriv (key iv : Buffer) : Js.JsError + Decipher :=
  match check_key_iv key iv with
  | Some e => inl e
  | None => inr {| d_key := key; d_iv := iv; d_aad := []; d_tag := None; d_ct := [] |}
  end.

Definition Decipher_setAAD (d : Decipher) (aad : Buffer) : Decipher :=
  {| d_key := d_key d; d_iv := d_iv d; d_aad := aad; d_tag := d_tag d; d_ct := d_ct d |}.

(** [decipher.setAuthTag(tag)]: GCM tags of 4, 8 and 12 to 16 bytes are
    accepted. *)
Definition valid_tag_length (n : nat) : bool :=
  (n =? 4)%nat || (n =? 8)%nat || ((12 <=? n)%nat && (n <=? 16)%nat).

Definition Decipher_setAuthTag (d : Decipher) (tag : Buffer) : Js.JsError + Decipher :=
  if valid_tag_length (length tag)
  then inr {| d_key := d_key d; d_iv := d_iv d; d_aad := d_aad d;
              d_tag := Some tag; d_ct := d_ct d |}
  else inl ERR_CRYPTO_INVALID_AUTH_TAG.

Definition Decipher_update (d : Decipher) (data : Buffer) : Decipher * Buffer :=
  let out := gctr (d_key d) (d_iv d) (length (d_ct d)) data in
  ({| d_key := d_key d; d_iv := d_iv d; d_aad := d_aad d; d_tag := d_tag d;
      d_ct := d_ct d ++ data |}, out).

(** [decipher.final()]: compares the expected tag, cut to the length of the
    tag that was set, with that tag. *)
Definition Decipher_final (d : Decipher) : Js.JsError + Buffer :=
  match d_tag d with
  | Some tag =>
      if decide (take (length tag) (gcm_tag (d_key d) (d_iv d) (d_aad d) (d_ct d)) = tag)
      then inr [] else inl AuthenticationError
  | None => inl AuthenticationError
  end.

End Gcm.

(** *** The functions of crypto.ts *)

(** The cost parameters are JavaScript numbers holding integers; their
    products are rounded to doubles, and are exact as long as they stay
    within [2^53]. *)
Record KdfParams := { N : Z; r : Z; p : Z; dkLen : Z }.

(** The values of the system random source that the next calls of
    [crypto.randomBytes] will deliver. *)
Definition Rng : Type := nat -> byte.

Record Sealed := { ct : Buffer; iv : Buffer; tag : Buffer }.

Section Crypto_ts.

Variable aes256 : Buffer -> Z -> Z.

(** [crypto.scrypt(password, salt, keylen, { N, r, p, maxmem }, cb)]: the
    error or the key that the callback receives. *)
Variable scrypt : string -> Buffer -> Z -> Z -> Z -> Z -> Z -> Js.JsError + Buffer.

(** The test of the [catch] clause of [deriveKek]:
    [/memory limit exceeded/i.test(msg) ||
     /ERR_CRYPTO_SCRYPT_INVALID_PARAMETER/i.test(String(e?.code || ''))]
    with [msg = String(e?.message || e || '')]; an error object with an empty
    message prints as its name. *)
Definition memory_limit_exceeded (e : Js.JsError) : bool :=
  let msg := if Js.truthy (Js.message e) then Js.message e else Js.name e in
  Js.test_i "memory limit exceeded" msg
  || Js.test_i "ERR_CRYPTO_SCRYPT_INVALID_PARAMETER" (default "" (Js.code e)).

(** One event per invocation of the KDF: the [maxmem] it was given. *)
Definition tryOnce (password : string) (salt : Buffer) (params : KdfParams)
    (maxmem : Z) : Eff.M Z Buffer :=
  ([maxmem], scrypt password salt (dkLen params) (N params) (r params) (p params) maxmem).

Definition deriveKek (password : string) (salt : Buffer) (params : KdfParams)
    : Eff.M Z Buffer :=
  let estimated := Js.mul (Js.mul 128 (N params)) (r params) in
  let baseMax := 64 * 1024 * 1024 in
  Eff.catch (tryOnce password salt params (Z.max baseMax (Js.mul estimated 2)))
    (fun e =>
       if memory_limit_exceeded e
       then tryOnce password salt params (Z.max (Js.mul baseMax 4) (Js.mul estimated 8))
       else Eff.throw e).

Definition randomBytes (n : nat) (g : Rng) : Buffer * Rng :=
  (map g (seq 0 n), fun i => g (n + i)%nat).

Definition encryptAesGcm (g : Rng) (key plaintext : Buffer) (aad : option Buffer)
    : (Js.JsError + Sealed) * Rng :=
  let iv := fst (randomBytes 12 g) in
  (match createCipheriv key iv with
   | inl e => inl e
   | inr cipher =>
       let cipher := match aad with Some a => Cipher_setAAD cipher a | None => cipher end in
       let upd := Cipher_update aes256 cipher plaintext in
       let ct := snd upd ++ Cipher_final (fst upd) in
       let tag := Cipher_getAuthTag aes256 (fst upd) in
       inr {| ct := ct; iv := iv; tag := tag |}
   end, snd (randomBytes 12 g)).

Definition decryptAesGcm (key iv tag ct : Buffer) (aad : option Buffer)
    : Js.JsError + Buffer :=
  match createDecipheriv key iv with
  | inl e => inl e
  | inr decipher =>
      let decipher := match aad with Some a => Decipher_setAAD decipher a | None => decipher end in
      match Decipher_setAuthTag decipher tag with
      | inl e => inl e
      | inr decipher =>
          let upd := Decipher_update aes256 decipher ct in
          match Decipher_final aes256 (fst upd) with
          | inl e => inl e
          | inr fin => inr (snd upd ++ fin)
          end
      end
  end.

End Crypto_ts.

End Crypto.

(** ** db.ts *)

Module Db.

(** *** The connection

    A connection holds the persisted store and, while a transaction is open,
    the working copy that the statements of the transaction see. *)
Record Conn (Store : Type) := { committed : Store; txn : option Store }.
Arguments committed {Store} _.
Arguments txn {Store} _.

(** The result of running one prepared statement on a store: a value and the
    updated store, or an error.  [rolls_back] tells whether the engine has
    rolled the whole transaction back on this error (as SQLite does for
    SQLITE_FULL, SQLITE_IOERR and the like) or only undone the statement. *)
Inductive StmtResult (Store R : Type) :=
| StmtOk (r : R) (s : Store)
| StmtError (e : Js.JsError) (rolls_back : bool).
Arguments StmtOk {Store R} _ _.
Arguments StmtError {Store R} _ _.

Definition Statement (Store R : Type) : Type := Store -> StmtResult Store R.

Inductive Control := BEGIN_IMMEDIATE | COMMIT | ROLLBACK.

Definition SqliteError (msg : string) : Js.JsError :=
  {| Js.name := "SqliteError"; Js.message := msg; Js.code := Some "SQLITE_ERROR" |}.

Section Connection.

Context {Store : Type}.

(** A computation on the connection: error or value, and the connection
    afterwards. *)
Definition Task (T : Type) : Type := Conn Store -> (Js.JsError + T) * Conn Store.

(** [db.exec('BEGIN IMMEDIATE' | 'COMMIT' | 'ROLLBACK')] *)
Definition exec (ctl : Control) : Task unit := fun c =>
  match ctl, txn c with
  | BEGIN_IMMEDIATE, None =>
      (inr tt, {| committed := committed c; txn := Some (committed c) |})
  | BEGIN_IMMEDIATE, Some _ =>
      (inl (SqliteError "cannot start a transaction within a transaction"), c)
  | COMMIT, Some w => (inr tt, {| committed := w; txn := None |})
  | COMMIT, None => (inl (SqliteError "cannot commit - no transaction is active"), c)
  | ROLLBACK, Some _ => (inr tt, {| committed := committed c; txn := None |})
  | ROLLBACK, None => (inl (SqliteError "cannot rollback - no transaction is active"), c)
  end.

(** [db.prepare(sql).run(...)], [.get(...)], [.all(...)]: outside a
    transaction the statement commits by itself. *)
Definition step {R} (st : Statement Store R) : Task R := fun c =>
  match txn c with
  | Some w =>
      match st w with
      | StmtOk r w' => (inr r, {| committed := committed c; txn := Some w' |})
      | StmtError e false => (inl e, c)
      | StmtError e true => (inl e, {| committed := committed c; txn := None |})
      end
  | None =>
      match st (committed c) with
      | StmtOk r s' => (inr r, {| committed := s'; txn := None |})
      | StmtError e _ => (inl e, c)
      end
  end.

(** [run], [get] and [all] wrap the synchronous call in a promise. *)
Definition run (st : Statement Store unit) : Task unit := step st.
Definition get {T} (st : Statement Store (option T)) : Task (option T) := step st.
Definition all {T} (st : Statement Store (list T)) : Task (list T) := step st.

Definition tx {T} (fn : Task T) : Task T := fun c =>
  match exec BEGIN_IMMEDIATE c with
  | (inl e, c1) => (inl e, c1)
  | (inr _, c1) =>
      match fn c1 with
      | (inr out, c2) =>
          match exec COMMIT c2 with
          | (inr _, c3) => (inr out, c3)
          | (inl e, c3) => (inl e, snd (exec ROLLBACK c3))
          end
      | (inl e, c2) => (inl e, snd (exec ROLLBACK c2))
      end
  end.

(** *** Bodies of store mutations

    An [async] function that awaits [run], [get] and [all] calls one after
    the other, may branch on what they return, and returns or throws. *)
Inductive Body (T : Type) : Type :=
| Return (out : T)
| Throw (e : Js.JsError)
| Await {R : Type} (st : Statement Store R) (k : R -> Body T).
Arguments Return {T} _.
Arguments Throw {T} _.
Arguments Await {T R} _ _.

Fixpoint perform {T} (b : Body T) : Task T := fun c =>
  match b with
  | Return out => (inr out, c)
  | Throw e => (inl e, c)
  | Await st k =>
      match step st c with
      | (inr r, c') => perform (k r) c'
      | (inl e, c') => (inl e, c')
      end
  end.

(** What the body does to a store when all of it is applied, one statement
    after the other: the value it returns and the mutated store, or the error
    it throws. *)
Fixpoint effect {T} (b : Body T) (s : Store) : Js.JsError + (T * Store) :=
  match b with
  | Return out => inr (out, s)
  | Throw e => inl e
  | Await st k =>
      match st s with
      | StmtOk r s' => effect (k r) s'
      | StmtError e _ => inl e
      end
  end.

End Connection.

Arguments Body : clear implicits.
Arguments Return {Store T} _.
Arguments Throw {Store T} _.
Arguments Await {Store T R} _ _.
Arguments Task : clear implicits.

(** *** The schema *)

Record EncryptionMeta :=
  { is_locked : Z; version : Z; kdf : string; kdf_salt : option Crypto.Buffer;
    kdf_params_json : option string; dek_ct : option Crypto.Buffer;
    dek_iv : option Crypto.Buffer; dek_tag : option Crypto.Buffer;
    password_hint : option string }.

(** The part of the database file that [migrate] touches: which tables
    exist, and the row [id = 1] of [encryption_meta]. *)
Record Schema := { tables : gset string; encryption_meta : option EncryptionMeta }.

Definition CREATE_TABLE_IF_NOT_EXISTS (t : string) : Statement Schema unit :=
  fun s => StmtOk tt {| tables := {[t]} ∪ tables s; encryption_meta := encryption_meta s |}.

Definition SELECT_encryption_meta : Statement Schema (option EncryptionMeta) :=
  fun s =>
    if decide ("encryption_meta" ∈ tables s) then StmtOk (encryption_meta s) s
    else StmtError (SqliteError "no such table: encryption_meta") false.

(** [INSERT INTO encryption_meta(id,is_locked,version,kdf) VALUES(1,0,1,?)] *)
Definition INSERT_encryption_meta (kdf : string) : Statement Schema unit :=
  fun s =>
    if decide ("encryption_meta" ∈ tables s) then
      match encryption_meta s with
      | None =>
          StmtOk tt
            {| tables := tables s;
               encryption_meta :=
                 Some {| is_locked := 0; version := 1; kdf := kdf; kdf_salt := None;
                         kdf_params_json := None; dek_ct := None; dek_iv := None;
                         dek_tag := None; password_hint := None |} |}
      | Some _ =>
          StmtError (SqliteError "UNIQUE constraint failed: encryption_meta.id") false
      end
    else StmtError (SqliteError "no such table: encryption_meta") false.

Definition migrate_body : Body Schema unit :=
  Await (CREATE_TABLE_IF_NOT_EXISTS "accounts") (fun _ =>
  Await (CREATE_TABLE_IF_NOT_EXISTS "credentials") (fun _ =>
  Await (CREATE_TABLE_IF_NOT_EXISTS "encryption_meta") (fun _ =>
  Await (CREATE_TABLE_IF_NOT_EXISTS "settings") (fun _ =>
  Await SELECT_encryption_meta (fun em =>
  match em with
  | None => Await (INSERT_encryption_meta "scrypt") (fun _ => Return tt)
  | Some _ => Return tt
  end))))).

Definition migrate : Task Schema unit := tx (perform migrate_body).

(** The schema once the statements of [migrate] have run on [s]. *)
Definition after_migrate (s : Schema) : Schema :=
  {| tables := {["settings"]} ∪ ({["encryption_meta"]} ∪ ({["credentials"]} ∪
                 ({["accounts"]} ∪ tables s)));
     encryption_meta :=
       Some (default {| is_locked := 0; version := 1; kdf := "scrypt"; kdf_salt := None;
                        kdf_params_json := None; dek_ct := None; dek_iv := None;
                        dek_tag := None; password_hint := None |}
               (encryption_meta s)) |}.

End Db.

(** ** calendar.ts *)

Module Calendar.

Import Crypto.

Record AccountRow :=
  { id : string; email : string; google_user_id : string;
    display_name : option string; scopes_json : string }.

(** The columns of [credentials] that [getCalendarClient] selects. *)
Record CredRow :=
  { refresh_token : option string; refresh_token_ct : option Buffer;
    refresh_token_iv : option Buffer; refresh_token_tag : option Buffer }.

(** calendar.ts only reads the database: its [db] is the content of the two
    tables it queries, [accounts] in row order and [credentials] by its
    primary key [account_id]. *)
Record DB := { accounts : list AccountRow; credentials : gmap string CredRow }.

Record CalendarConfig := { db : DB; dek : option Buffer; readOnly : option bool }.

(** The statements of calendar.ts, by the type of row they select.
    - [SELECT_accounts_ORDER_BY_email]:
      [SELECT ... FROM accounts ORDER BY email]
    - [SELECT_accounts_WHERE_id_OR_email a b]:
      [SELECT ... FROM accounts WHERE id=? OR email=?] with parameters [a], [b];
      the engine answers the two terms from the indexes of the primary key
      [id] and of the unique column [email], the rows of the first term
      first
    - [SELECT_accounts_WHERE_LIKE a b]:
      [SELECT ... FROM accounts WHERE LOWER(email) LIKE ? OR
       LOWER(COALESCE(display_name,'')) LIKE ? ORDER BY email]
    - [SELECT_credentials_WHERE_account_id a]:
      [SELECT refresh_token, ... FROM credentials WHERE account_id=?] *)
Inductive Sql : Type -> Type :=
| SELECT_accounts_ORDER_BY_email : Sql AccountRow
| SELECT_accounts_WHERE_id_OR_email (a b : string) : Sql AccountRow
| SELECT_accounts_WHERE_LIKE (a b : string) : Sql AccountRow
| SELECT_credentials_WHERE_account_id (a : string) : Sql CredRow.

Definition rows {T} (db : DB) (q : Sql T) : list T :=
  match q in Sql T return list T with
  | SELECT_accounts_ORDER_BY_email => Sqlite.ORDER_BY email (accounts db)
  | SELECT_accounts_WHERE_id_OR_email a b =>
      filter (fun row => id row = a) (accounts db)
      ++ filter (fun row => email row = b /\ id row <> a) (accounts db)
  | SELECT_accounts_WHERE_LIKE a b =>
      Sqlite.ORDER_BY email
        (filter (fun row =>
                   Sqlite.LIKE (Sqlite.LOWER (email row)) a = true \/
                   Sqlite.LIKE (Sqlite.LOWER (Sqlite.COALESCE (display_name row) "")) b = true)
                (accounts db))
  | SELECT_credentials_WHERE_account_id a => option_list (credentials db !! a)
  end.

(** JSON values that the tools pass through. *)
#[warnings="-register-all"]
Inductive JsonValue :=
| JNull
| JBool (b : bool)
| JNumber (n : Z)
| JString (s : string)
| JArray (l : list JsonValue)
| JObject (fields : list (string * JsonValue)).

(** The OAuth2 client that [getCalendarClient] builds: the two environment
    values and the credentials set on it. *)
Record Client := { clientId : string; clientSecret : string; credentials_refresh_token : string }.

(** The methods of the Calendar API that are called, with their parameters. *)
Inductive ApiCall :=
| calendarList_list
| events_list (calendarId : string) (q timeMin timeMax : option string) (maxResults : Z)
| events_get (calendarId eventId : string)
| events_insert (calendarId : string) (requestBody : JsonValue)
| events_patch (calendarId eventId : string) (requestBody : JsonValue)
| events_delete (calendarId eventId : string).

(** What a function of calendar.ts does to its collaborators. *)
Inductive Event :=
| Db_get {T} (q : Sql T)
| Db_all {T} (q : Sql T)
| Call_decryptAesGcm (key : Buffer) (iv tag ct : option Buffer) (aad : Buffer)
| Request (auth : Client) (call : ApiCall).

(** What an [async] function of calendar.ts has done when its promise is
    settled. *)
Definition Promise : Type -> Type := Eff.M Event.

(** The statements as prepared statements of db.ts: [.all()] yields the
    selected rows, [.get()] the first of them; neither changes the store. *)
Definition stmt_all {T} (q : Sql T) : Db.Statement DB (list T) :=
  fun s => Db.StmtOk (rows s q) s.

Definition stmt_get {T} (q : Sql T) : Db.Statement DB (option T) :=
  fun s => Db.StmtOk (head (rows s q)) s.

(** calendar.ts never opens a transaction. *)
Definition connection (db : DB) : Db.Conn DB := {| Db.committed := db; Db.txn := None |}.

(** [await get(db, sql, params)] and [await all(db, sql, params)]. *)
Definition await_get {T} (db : DB) (q : Sql T) : Promise (option T) :=
  ([Db_get q], fst (Db.get (stmt_get q) (connection db))).

Definition await_all {T} (db : DB) (q : Sql T) : Promise (list T) :=
  ([Db_all q], fst (Db.all (stmt_all q) (connection db))).

Definition listAccounts (db : DB) : Promise (list AccountRow) :=
  await_all db SELECT_accounts_ORDER_BY_email.

Definition getAccountByKey (db : DB) (key : string) : Promise (option AccountRow) :=
  await_get db (SELECT_accounts_WHERE_id_OR_email key key).

(** The errors that [resolveAccount] throws. *)
Definition NoAccountsError : Js.JsError :=
  Js.Error "No linked accounts. Use the CLI to add one.".

Definition MultipleAccountsLinked : Js.JsError :=
  Js.Error "Multiple accounts linked. Specify an email or id, or call list_accounts to choose.".

Definition MultipleAccountsMatch (trimmed : string) (emails : list string) : Js.JsError :=
  Js.Error ("Multiple accounts match '" +:+ trimmed +:+ "': " +:+ Js.join ", " emails
            +:+ ". Provide an exact email or id, or call list_accounts.").

Definition AccountNotFoundError (trimmed : string) : Js.JsError :=
  Js.Error ("Account not found for '" +:+ trimmed
            +:+ "'. Call list_accounts to see available accounts.").

Definition resolveAccount (db : DB) (key : option string) : Promise AccountRow :=
  let trimmed := Js.trim (default "" key) in
  if negb (Js.truthy trimmed) then
    rows ← listAccounts db;
    match rows with
    | [] => Eff.throw NoAccountsError
    | [row] => mret row
    | _ :: _ :: _ => Eff.throw MultipleAccountsLinked
    end
  else
    exact ← await_get db (SELECT_accounts_WHERE_id_OR_email trimmed trimmed);
    match exact with
    | Some row => mret row
    | None =>
        let like := "%" +:+ Js.toLowerCase trimmed +:+ "%" in
        candidates ← await_all db (SELECT_accounts_WHERE_LIKE like like);
        match candidates with
        | [c] => mret c
        | _ :: _ :: _ => Eff.throw (MultipleAccountsMatch trimmed (email <$> candidates))
        | [] => Eff.throw (AccountNotFoundError trimmed)
        end
    end.

Definition searchAccounts (db : DB) (query : option string) : Promise (list AccountRow) :=
  let q := Js.toLowerCase (Js.trim (default "" query)) in
  if negb (Js.truthy q) then listAccounts db
  else
    let like := "%" +:+ q +:+ "%" in
    await_all db (SELECT_accounts_WHERE_LIKE like like).

Definition CredentialsNotFoundError : Js.JsError :=
  Js.Error "Account credentials not found".

Definition DatabaseLockedError : Js.JsError :=
  Js.Error "Database is locked and password has not been provided".

Definition ReadOnlyError : Js.JsError := Js.Error "Server is in read-only mode".

(** What Node's [crypto] throws when it is handed [null] (a NULL column)
    where a buffer is required; the message names the argument. *)
Definition ERR_INVALID_ARG_TYPE (argument expected : string) : Js.JsError :=
  {| Js.name := "TypeError";
     Js.message := "The " +:+ Js.quote +:+ argument +:+ Js.quote +:+ " argument must be "
                   +:+ expected +:+ ". Received null";
     Js.code := Some "ERR_INVALID_ARG_TYPE" |}.

(** What reading a property of [null] throws. *)
Definition TypeError_reading_null (property : string) : Js.JsError :=
  {| Js.name := "TypeError";
     Js.message := "Cannot read properties of null (reading '" +:+ property +:+ "')";
     Js.code := None |}.

(** What calling a method that the value does not have throws. *)
Definition TypeError_not_a_function (callee : string) : Js.JsError :=
  {| Js.name := "TypeError"; Js.message := callee +:+ " is not a function";
     Js.code := None |}.

(** The associated data of an account's refresh token:
    [Buffer.from(`credentials.refresh_token:${accountId}:v1`)]. *)
Definition aad_of (accountId : string) : Buffer :=
  String.list_byte_of_string ("credentials.refresh_token:" +:+ accountId +:+ ":v1").

Section Calendar_ts.

(** The collaborators: the AES-256 block function inside Node's cipher,
    [Buffer.prototype.toString('utf8')], [process.env], and the remote
    calendar service answering an authenticated call with [resp.data]. *)
Variable aes256 : Buffer -> Z -> Z.
Variable toString_utf8 : Buffer -> string.
Variable env : string -> option string.
Variable google : Client -> ApiCall -> Js.JsError + JsonValue.

(** The call [decryptAesGcm(cfg.dek, cred.refresh_token_iv,
    cred.refresh_token_tag, cred.refresh_token_ct, aad)] on columns that may
    be NULL: [createDecipheriv] refuses a [null] IV, [setAuthTag] a [null]
    tag and [update] a [null] ciphertext, each when its turn comes. *)
Definition call_decryptAesGcm (key : Buffer) (iv tag ct : option Buffer) (aad : Buffer)
    : Promise Buffer :=
  ([Call_decryptAesGcm key iv tag ct aad],
   match iv, tag, ct with
   | Some iv, Some tag, Some ct => decryptAesGcm aes256 key iv tag ct (Some aad)
   | None, _, _ => inl ERR_CRYPTO_INVALID_IV
   | Some iv, None, _ =>
       match createDecipheriv key iv with
       | inl e => inl e
       | inr _ =>
           inl (ERR_INVALID_ARG_TYPE "buffer"
                  "of type string or an instance of ArrayBuffer, Buffer, TypedArray, or DataView")
       end
   | Some iv, Some tag, None =>
       match createDecipheriv key iv with
       | inl e => inl e
       | inr decipher =>
           match Decipher_setAuthTag (Decipher_setAAD decipher aad) tag with
           | inl e => inl e
           | inr _ =>
               inl (ERR_INVALID_ARG_TYPE "data"
                      "of type string or an instance of Buffer, TypedArray, or DataView")
           end
       end
   end).

(** [process.env.X || ''] *)
Definition env_or_empty (x : string) : string := default "" (env x).

(** [new google.auth.OAuth2(process.env.GOOGLE_CLIENT_ID || '',
    process.env.GOOGLE_CLIENT_SECRET || '')] with
    [setCredentials({ refresh_token: refreshToken })]. *)
Definition client_of (refreshToken : string) : Client :=
  {| clientId := env_or_empty "GOOGLE_CLIENT_ID";
     clientSecret := env_or_empty "GOOGLE_CLIENT_SECRET";
     credentials_refresh_token := refreshToken |}.

Definition getCalendarClient (cfg : CalendarConfig) (accountId : string) : Promise Client :=
  cred ← await_get (db cfg) (SELECT_credentials_WHERE_account_id accountId);
  match cred with
  | None => Eff.throw CredentialsNotFoundError
  | Some cred =>
      refreshToken ←
        (match Js.if_truthy (refresh_token cred) with
         | Some token => mret token
         | None =>
             match dek cfg with
             | None => Eff.throw DatabaseLockedError
             | Some dek =>
                 pt ← call_decryptAesGcm dek (refresh_token_iv cred)
                        (refresh_token_tag cred) (refresh_token_ct cred) (aad_of accountId);
                 mret (toString_utf8 pt)
             end
         end);
      mret (client_of refreshToken)
  end.

(** One call of the remote service. *)
Definition request (auth : Client) (call : ApiCall) : Promise JsonValue :=
  ([Request auth call], google auth call).

(** Truthiness of a JSON value. *)
Definition truthy (v : JsonValue) : bool :=
  match v with
  | JNull => false
  | JBool b => b
  | JNumber n => negb (n =? 0)
  | JString s => Js.truthy s
  | JArray _ | JObject _ => true
  end.

(** [resp.data.items || []]: reading [items] of [null] throws; a value
    without that property, or with a falsy one, gives the empty array. *)
Definition items_or_empty (data : JsonValue) : Promise JsonValue :=
  match data with
  | JNull => Eff.throw (TypeError_reading_null "items")
  | JObject fields =>
      match (list_find (fun kv => fst kv = "items") fields) with
      | Some (_, (_, items)) => mret (if truthy items then items else JArray [])
      | None => mret (JArray [])
      end
  | _ => mret (JArray [])
  end.

Definition listCalendars (cfg : CalendarConfig) (accountId : string) : Promise JsonValue :=
  calendar ← getCalendarClient cfg accountId;
  data ← request calendar calendarList_list;
  items_or_empty data.

(** [opts.maxResults || 50] *)
Definition maxResults_or_50 (maxResults : option Z) : Z :=
  match maxResults with
  | Some n => if decide (n = 0) then 50 else n
  | None => 50
  end.

Record ListOpts :=
  { q : option string; timeMin : option string; timeMax : option string;
    maxResults : option Z }.

Definition listEvents (cfg : CalendarConfig) (accountId calendarId : string)
    (opts : ListOpts) : Promise JsonValue :=
  calendar ← getCalendarClient cfg accountId;
  data ← request calendar
           (events_list calendarId (q opts) (timeMin opts) (timeMax opts)
              (maxResults_or_50 (maxResults opts)));
  items_or_empty data.

Definition getEvent (cfg : CalendarConfig) (accountId calendarId eventId : string)
    : Promise JsonValue :=
  calendar ← getCalendarClient cfg accountId;
  request calendar (events_get calendarId eventId).

(** [if (cfg.readOnly)]: an absent flag is falsy. *)
Definition is_readOnly (cfg : CalendarConfig) : bool := default false (readOnly cfg).

Definition createEvent (cfg : CalendarConfig) (accountId calendarId : string)
    (event : JsonValue) : Promise JsonValue :=
  if is_readOnly cfg then Eff.throw ReadOnlyError
  else
    calendar ← getCalendarClient cfg accountId;
    request calendar (events_insert calendarId event).

Definition updateEvent (cfg : CalendarConfig) (accountId calendarId eventId : string)
    (patch : JsonValue) : Promise JsonValue :=
  if is_readOnly cfg then Eff.throw ReadOnlyError
  else
    calendar ← getCalendarClient cfg accountId;
    request calendar (events_patch calendarId eventId patch).

Definition deleteEvent (cfg : CalendarConfig) (accountId calendarId eventId : string)
    : Promise JsonValue :=
  if is_readOnly cfg then Eff.throw ReadOnlyError
  else
    calendar ← getCalendarClient cfg accountId;
    _ ← request calendar (events_delete calendarId eventId);
    mret (JObject [("ok", JBool true)]).

End Calendar_ts.

End Calendar.

(** ** tools.ts *)

Module Tools.

(** The configuration that [buildTools(db, dek, readOnly = false)] hands to
    every handler. *)
Definition buildTools_cfg (db : Calendar.DB) (dek : option Crypto.Buffer)
    (readOnly : option bool) : Calendar.CalendarConfig :=
  {| Calendar.db := db; Calendar.dek := dek;
     Calendar.readOnly := Some (default false readOnly) |}.

(** *** The handlers

    A handler is modelled on the input that its zod schema has accepted. *)

(** [{ id: r.id, email: r.email, displayName: r.display_name ?? null }] *)
Record AccountSummary :=
  { id : string; email : string; displayName : option string }.

Definition summary (r : Calendar.AccountRow) : AccountSummary :=
  {| id := Calendar.id r; email := Calendar.email r;
     displayName := Calendar.display_name r |}.

(** The object that [gcal-resolve_account] returns. *)
Record Resolution :=
  { query : string; matches : list AccountSummary; exact : bool; ambiguous : bool;
    count : Z }.

(** The handler of [gcal-list_accounts]. *)
Definition gcal_list_accounts (db : Calendar.DB) : Calendar.Promise (list AccountSummary) :=
  rows ← Calendar.listAccounts db;
  mret (summary <$> rows).

(** The second search of [gcal-resolve_account], which also serves a blank
    query. *)
Definition resolve_by_search (db : Calendar.DB) (q : string) : Calendar.Promise Resolution :=
  rows ← Calendar.searchAccounts db (Some q);
  let matches := summary <$> rows in
  mret {| query := q; matches := matches; exact := false;
          ambiguous := (1 <? length matches)%nat;
          count := Z.of_nat (length matches) |}.

(** The handler of [gcal-resolve_account]; [rows.find(p)] is the first row
    that satisfies [p]. *)
Definition gcal_resolve_account (db : Calendar.DB) (query : option string)
    : Calendar.Promise Resolution :=
  let q := Js.trim (default "" query) in
  if Js.truthy q then
    rows ← Calendar.searchAccounts db (Some q);
    match head (filter (fun r => Calendar.email r = q \/ Calendar.id r = q) rows) with
    | Some r =>
        let matches := summary <$> [r] in
        mret {| query := q; matches := matches; exact := true; ambiguous := false;
                count := Z.of_nat (length matches) |}
    | None => resolve_by_search db q
    end
  else resolve_by_search db q.

(** The input of [gcal-create_event] and the event resource built from it;
    a property that is [undefined] does not reach the request body. *)
Record EventTime :=
  { dateTime : option string; date : option string; timeZone : option string }.

Record CreateEventInput :=
  { summary_ : string; description : option string; location : option string;
    start : EventTime; end_ : EventTime; attendees : option (list string) }.

Definition optional (k : string) (v : option Calendar.JsonValue)
    : list (string * Calendar.JsonValue) :=
  match v with Some j => [(k, j)] | None => [] end.

Definition EventTime_json (t : EventTime) : Calendar.JsonValue :=
  Calendar.JObject
    (optional "dateTime" (Calendar.JString <$> dateTime t)
     ++ optional "date" (Calendar.JString <$> date t)
     ++ optional "timeZone" (Calendar.JString <$> timeZone t)).

Definition attendee_json (email : string) : Calendar.JsonValue :=
  Calendar.JObject [("email", Calendar.JString email)].

Definition event_of (input : CreateEventInput) : Calendar.JsonValue :=
  Calendar.JObject
    ([("summary", Calendar.JString (summary_ input))]
     ++ optional "description" (Calendar.JString <$> description input)
     ++ optional "location" (Calendar.JString <$> location input)
     ++ [("start", EventTime_json (start input)); ("end", EventTime_json (end_ input))]
     ++ optional "attendees"
          ((fun l => Calendar.JArray (attendee_json <$> l)) <$> attendees input)).

Section Handlers.

Variable aes256 : Crypto.Buffer -> Z -> Z.
Variable toString_utf8 : Crypto.Buffer -> string.
Variable env : string -> option string.
Variable google : Calendar.Client -> Calendar.ApiCall -> Js.JsError + Calendar.JsonValue.

(** The arguments of [buildTools]. *)
Variable db : Calendar.DB.
Variable dek : option Crypto.Buffer.
Variable readOnly : option bool.

Definition cfg : Calendar.CalendarConfig := buildTools_cfg db dek readOnly.

(** The handler of [gcal-search_events]; [(items || []).map(...)] needs an
    array. *)
Definition gcal_search_events (account : option string) (opts : Calendar.ListOpts)
    : Calendar.Promise (list Calendar.JsonValue) :=
  acc ← Calendar.resolveAccount db account;
  items ← Calendar.listEvents aes256 toString_utf8 env google cfg (Calendar.id acc)
            "primary" opts;
  match items with
  | Calendar.JArray events => mret events
  | _ => Eff.throw (Calendar.TypeError_not_a_function "(items || []).map")
  end.

(** The handler of [gcal-get_event]. *)
Definition gcal_get_event (account : option string) (eventId : string)
    : Calendar.Promise Calendar.JsonValue :=
  acc ← Calendar.resolveAccount db account;
  Calendar.getEvent aes256 toString_utf8 env google cfg (Calendar.id acc) "primary" eventId.

(** The handler of [gcal-create_event]. *)
Definition gcal_create_event (account : option string) (input : CreateEventInput)
    : Calendar.Promise Calendar.JsonValue :=
  acc ← Calendar.resolveAccount db account;
  Calendar.createEvent aes256 toString_utf8 env google cfg (Calendar.id acc) "primary"
    (event_of input).

(** The handler of [gcal-update_event]; [input.patch || {}] is the patch,
    an object being truthy. *)
Definition gcal_update_event (account : option string) (eventId : string)
    (patch : list (string * Calendar.JsonValue)) : Calendar.Promise Calendar.JsonValue :=
  acc ← Calendar.resolveAccount db account;
  Calendar.updateEvent aes256 toString_utf8 env google cfg (Calendar.id acc) "primary"
    eventId (Calendar.JObject patch).

(** The handler of [gcal-delete_event]. *)
Definition gcal_delete_event (account : option string) (eventId : string)
    : Calendar.Promise Calendar.JsonValue :=
  acc ← Calendar.resolveAccount db account;
  Calendar.deleteEvent aes256 toString_utf8 env google cfg (Calendar.id acc) "primary" eventId.

End Handlers.

End Tools.

(** ** Reading traces *)

Module Trace.

(** The calendar that a call of the remote service addresses. *)
Definition calendar_of (call : Calendar.ApiCall) : option string :=
  match call with
  | Calendar.calendarList_list => None
  | Calendar.events_list calendarId _ _ _ _ => Some calendarId
  | Calendar.events_get calendarId _ => Some calendarId
  | Calendar.events_insert calendarId _ => Some calendarId
  | Calendar.events_patch calendarId _ _ => Some calendarId
  | Calendar.events_delete calendarId _ => Some calendarId
  end.

(** The requests among the events of a trace, in order. *)
Definition requests (t : list Calendar.Event) : list (Calendar.Client * Calendar.ApiCall) :=
  omap (fun ev => match ev with
                  | Calendar.Request auth call => Some (auth, call)
                  | _ => None
                  end) t.

(** The request sent as a client, when there is a client. *)
Definition request_as (client : Js.JsError + Calendar.Client) (call : Calendar.ApiCall)
    : list (Calendar.Client * Calendar.ApiCall) :=
  match client with
  | inr auth => [(auth, call)]
  | inl _ => []
  end.

End Trace.

(** ** Predicates of the resolver *)

Module Resolver.

Import Calendar.

Implicit Types (row : AccountRow).

(** The exact-match predicate of the statement [WHERE id=? OR email=?]. *)
Definition exact_match (k : string) row : Prop := id row = k \/ email row = k.

(** The fuzzy-match predicate of the statement
    [WHERE LOWER(email) LIKE ? OR LOWER(COALESCE(display_name,'')) LIKE ?]. *)
Definition like_match (pattern : string) row : Prop :=
  Sqlite.LIKE (Sqlite.LOWER (email row)) pattern = true \/
  Sqlite.LIKE (Sqlite.LOWER (Sqlite.COALESCE (display_name row) "")) pattern = true.




(** The fuzzy match as the documentation words it: the case-folded key is a
    substring of the case-folded email or display name, a missing display
    name counting as the empty string. *)
Definition substring_match (k : string) row : Prop :=
  Js.includes (Js.toLowerCase k) (Js.toLowerCase (email row)) = true \/
  Js.includes (Js.toLowerCase k) (Js.toLowerCase (default "" (display_name row))) = true.

(** An account whose email and display name are ASCII text, on which the
    byte-wise [LIKE] above is that of SQLite. *)
Definition ascii_account row : bool :=
  Js.is_ascii (email row) && Js.is_ascii (default "" (display_name row)).

(** The order of [ORDER BY email]. *)
Definition by_email row1 row2 : Prop := String.le (email row1) (email row2).

End Resolver.

(** ** Concrete stores and collaborators *)

Module Examples.

Import Crypto Calendar.

(** The two accounts of the resolver example of the specification. *)
Definition account_1 : AccountRow :=
  {| id := "1"; email := "a@x.com"; google_user_id := "g-1";
     display_name := None; scopes_json := "[]" |}.

Definition account_2 : AccountRow :=
  {| id := "2"; email := "ab@x.com"; google_user_id := "g-2";
     display_name := Some "a"; scopes_json := "[]" |}.

(** An account whose id begins and ends with a space. *)
Definition account_padded : AccountRow :=
  {| id := " x "; email := "p@y.org"; google_user_id := "g-3";
     display_name := None; scopes_json := "[]" |}.

(** Two accounts that the same key matches exactly: it is the id of the
    first and the email of the second. *)
Definition account_by_id : AccountRow :=
  {| id := "me@x.org"; email := "other@x.org"; google_user_id := "g-4";
     display_name := None; scopes_json := "[]" |}.

Definition account_by_email : AccountRow :=
  {| id := "5"; email := "me@x.org"; google_user_id := "g-5";
     display_name := None; scopes_json := "[]" |}.

Definition shared_key : DB :=
  {| accounts := [account_by_id; account_by_email]; credentials := ∅ |}.

Definition one_account : DB := {| accounts := [account_1]; credentials := ∅ |}.
Definition two_accounts : DB := {| accounts := [account_2; account_1]; credentials := ∅ |}.
Definition padded_account : DB := {| accounts := [account_padded]; credentials := ∅ |}.

(** AES-256 under the all-zero key on the three blocks that GCM test case 14
    (all-zero key and IV, one zero block of plaintext) encrypts: the hash
    subkey, the tag mask and the first key stream block. *)
Definition aes256_zero_key (key : Buffer) (block : Z) : Z :=
  if decide (block = 0) then 0xdc95c078a2408989ad48a21492842087
  else if decide (block = 1) then 0x530f8afbc74536b9a963b4f1c4cb738b
  else if decide (block = 2) then 0xcea7403d4d606b6e074ec5d3baf39d18
  else 0.

Definition zero_key : Buffer := replicate 32 Byte.x00.
Definition zero_block : Buffer := replicate 16 Byte.x00.
Definition zero_rng : Rng := fun _ => Byte.x00.

(** A KDF that needs 100 MiB and reports the ceiling the way current Node
    versions do. *)
Definition memory_error : Js.JsError :=
  {| Js.name := "Error";
     Js.message := "Invalid scrypt params: error:030000AC:digital envelope routines::memory limit exceeded";
     Js.code := Some "ERR_CRYPTO_INVALID_SCRYPT_PARAMS" |}.

Definition scrypt_100MiB (password : string) (salt : Buffer) (keylen N r p maxmem : Z)
    : Js.JsError + Buffer :=
  if 100 * 1024 * 1024 <=? maxmem then inr zero_key else inl memory_error.

Definition params_16MiB : KdfParams :=
  {| Crypto.N := 16384; Crypto.r := 8; Crypto.p := 1; Crypto.dkLen := 32 |}.

(** A KDF that reports every invalid parameter, whatever the ceiling, under
    the code that Node first gave to scrypt's parameter errors, and accepts
    the costs [N] that are powers of two above 1. *)
Definition invalid_parameter_error : Js.JsError :=
  {| Js.name := "Error"; Js.message := "Invalid scrypt parameter";
     Js.code := Some "ERR_CRYPTO_SCRYPT_INVALID_PARAMETER" |}.

Definition scrypt_strict (password : string) (salt : Buffer) (keylen N r p maxmem : Z)
    : Js.JsError + Buffer :=
  if (1 <? N) && (2 ^ Z.log2 N =? N) then inr zero_key else inl invalid_parameter_error.

(** A cost that is not a power of two, and costs whose product is not a
    double. *)
Definition params_N_3 : KdfParams :=
  {| Crypto.N := 3; Crypto.r := 8; Crypto.p := 1; Crypto.dkLen := 32 |}.

Definition params_2_32 : KdfParams :=
  {| Crypto.N := 2 ^ 32 - 1; Crypto.r := 2 ^ 32 - 1; Crypto.p := 1; Crypto.dkLen := 32 |}.

(** Credential rows: plaintext only, encrypted only, both, and an empty
    plaintext next to encrypted columns. *)
Definition some_iv : Buffer := replicate 12 Byte.x00.
Definition some_tag : Buffer := replicate 16 Byte.x01.
Definition some_ct : Buffer := [Byte.x02; Byte.x03].

Definition cred_plain : CredRow :=
  {| refresh_token := Some "1//token"; refresh_token_ct := None;
     refresh_token_iv := None; refresh_token_tag := None |}.

Definition cred_encrypted : CredRow :=
  {| refresh_token := None; refresh_token_ct := Some some_ct;
     refresh_token_iv := Some some_iv; refresh_token_tag := Some some_tag |}.

Definition cred_both : CredRow :=
  {| refresh_token := Some "1//token"; refresh_token_ct := Some some_ct;
     refresh_token_iv := Some some_iv; refresh_token_tag := Some some_tag |}.

Definition cred_empty_plain : CredRow :=
  {| refresh_token := Some ""; refresh_token_ct := Some some_ct;
     refresh_token_iv := Some some_iv; refresh_token_tag := Some some_tag |}.

Definition store : DB :=
  {| accounts := [account_2; account_1];
     credentials := {[ "1" := cred_plain; "2" := cred_encrypted;
                       "3" := cred_both; "4" := cred_empty_plain ]} |}.

Definition cfg_unlocked : CalendarConfig := {| db := store; dek := None; readOnly := None |}.
Definition cfg_with_dek : CalendarConfig :=
  {| db := store; dek := Some zero_key; readOnly := Some false |}.
Definition cfg_readOnly : CalendarConfig :=
  Tools.buildTools_cfg store (Some zero_key) (Some true).

(** A refresh token sealed for account ["5"] under the all-zero key, with
    the all-zero IV that [zero_rng] delivers, and the store that holds it. *)
Definition token_bytes : Buffer := String.list_byte_of_string "1//sealed".

Definition sealed_token : Sealed :=
  {| ct := gctr aes256_zero_key zero_key some_iv 0 token_bytes;
     iv := some_iv;
     tag := gcm_tag aes256_zero_key zero_key some_iv (aad_of "5")
              (gctr aes256_zero_key zero_key some_iv 0 token_bytes) |}.

Definition cred_sealed : CredRow :=
  {| refresh_token := None; refresh_token_ct := Some (ct sealed_token);
     refresh_token_iv := Some (iv sealed_token);
     refresh_token_tag := Some (tag sealed_token) |}.

Definition sealed_store : DB :=
  {| accounts := [account_by_email]; credentials := {[ "5" := cred_sealed ]} |}.

Definition cfg_sealed : CalendarConfig :=
  {| db := sealed_store; dek := Some zero_key; readOnly := None |}.

Definition no_env (x : string) : option string := None.
Definition silent_service (auth : Client) (call : ApiCall) : Js.JsError + JsonValue :=
  inr JNull.

End Examples.

(** * Properties *)

(** ** Account resolution *)

Section Exact.

Import Calendar Resolver.

Implicit Types (db : DB) (key : option string) (row : AccountRow).

Lemma truthy_false_iff (s : string) : Js.truthy s = false <-> s = "".
Proof. destruct s; simpl; split; congruence. Qed.

Lemma ORDER_BY_Permutation {A} (col : A -> string) (l : list A) :
  Sqlite.ORDER_BY col l ≡ₚ l.
Proof. apply merge_sort_Permutation. Qed.

Lemma ORDER_BY_nil {A} (col : A -> string) : Sqlite.ORDER_BY col [] = [].
Proof. apply Permutation_nil_r, ORDER_BY_Permutation. Qed.

Lemma ORDER_BY_singleton {A} (col : A -> string) (x : A) :
  Sqlite.ORDER_BY col [x] = [x].
Proof. apply Permutation_singleton_r, ORDER_BY_Permutation. Qed.

Lemma ORDER_BY_two_or_more {A} (col : A -> string) (x y : A) (l : list A) :
  exists x' y' l', Sqlite.ORDER_BY col (x :: y :: l) = x' :: y' :: l'.
Proof.
  pose proof (Permutation_length (ORDER_BY_Permutation col (x :: y :: l))) as Hlen.
  destruct (Sqlite.ORDER_BY col (x :: y :: l)) as [|x' [|y' l']]; simpl in Hlen;
    try discriminate.
  eauto.
Qed.

Lemma ORDER_BY_sorted {A} (col : A -> string) (l : list A) :
  StronglySorted (fun a b => String.le (col a) (col b)) (Sqlite.ORDER_BY col l).
Proof.
  apply StronglySorted_merge_sort.
  - intros a b c. apply (transitivity (R := String.le)).
  - intros a b. apply (total String.le).
Qed.

(** C3.  When the key is omitted or empty after trimming, [resolveAccount]
    only lists the accounts: with no account it throws the "no linked
    accounts" error, with exactly one account it returns that account, and
    with two or more it throws the "multiple accounts linked" error, whose
    message names no candidate. *)
Theorem resolveAccount_empty_key db key :
  Js.trim (default "" key) = "" ->
  resolveAccount db key =
    ([Db_all SELECT_accounts_ORDER_BY_email],
     match accounts db with
     | [] => inl NoAccountsError
     | [row] => inr row
     | _ :: _ :: _ => inl MultipleAccountsLinked
     end).
Proof.
  intros Hkey. unfold resolveAccount. rewrite Hkey. simpl.
  destruct (accounts db) as [|x [|y l]].
  - rewrite ORDER_BY_nil. reflexivity.
  - rewrite ORDER_BY_singleton. reflexivity.
  - destruct (ORDER_BY_two_or_more email x y l) as (x' & y' & l' & ->). reflexivity.
Qed.

Lemma head_filter_exists {A} (P : A -> Prop) `{!forall x, Decision (P x)} (l : list A) (a : A) :
  a ∈ l -> P a -> exists a', head (filter P l) = Some a' /\ a' ∈ l /\ P a'.
Proof.
  intros Hin Ha.
  assert (a ∈ filter P l) as Hf by (apply list_elem_of_filter; auto).
  destruct (filter P l) as [|a' l'] eqn:E; [by apply elem_of_nil in Hf|].
  exists a'. split; [reflexivity|].
  assert (a' ∈ filter P l) as Ha' by (rewrite E; left).
  apply list_elem_of_filter in Ha'. tauto.
Qed.

Lemma await_get_eq {T} db (q : Sql T) : await_get db q = ([Db_get q], inr (head (rows db q))).
Proof. reflexivity. Qed.

Lemma await_all_eq {T} db (q : Sql T) : await_all db q = ([Db_all q], inr (rows db q)).
Proof. reflexivity. Qed.

(** The rows of the exact-match statement are the stored accounts whose id
    or email is the parameter. *)
Lemma exact_rows db (k : string) row :
  row ∈ rows db (SELECT_accounts_WHERE_id_OR_email k k) <->
  row ∈ accounts db /\ exact_match k row.
Proof.
  cbn [rows]. rewrite elem_of_app, !list_elem_of_filter. unfold exact_match. split.
  - intros [[? ?]|[[? ?] ?]]; tauto.
  - intros [Hin [Hid|Hemail]]; [tauto|].
    destruct (decide (id row = k)); tauto.
Qed.

Lemma exact_head_Some db (k : string) row :
  head (rows db (SELECT_accounts_WHERE_id_OR_email k k)) = Some row ->
  row ∈ accounts db /\ exact_match k row.
Proof.
  intros Hhead. apply exact_rows.
  destruct (rows db _) as [|x l]; [discriminate|]. injection Hhead as ->. left.
Qed.

Lemma exact_head_None db (k : string) :
  head (rows db (SELECT_accounts_WHERE_id_OR_email k k)) = None <->
  forall row, row ∈ accounts db -> ~ exact_match k row.
Proof.
  split.
  - intros Hhead row Hin Hex.
    assert (row ∈ rows db (SELECT_accounts_WHERE_id_OR_email k k)) as Hrow
      by (apply exact_rows; auto).
    destruct (rows db _); [by apply elem_of_nil in Hrow|discriminate].
  - intros Hnone. destruct (rows db _) as [|x l] eqn:E; [reflexivity|].
    assert (x ∈ rows db (SELECT_accounts_WHERE_id_OR_email k k)) as Hx by (rewrite E; left).
    apply exact_rows in Hx as [Hin Hex]. destruct (Hnone x Hin Hex).
Qed.

(** What [resolveAccount] does once the exact-match statement has found a
    row. *)
Lemma resolveAccount_first_exact db key row :
  Js.trim (default "" key) <> "" ->
  head (rows db (SELECT_accounts_WHERE_id_OR_email
                   (Js.trim (default "" key)) (Js.trim (default "" key)))) = Some row ->
  resolveAccount db key =
    ([Db_get (SELECT_accounts_WHERE_id_OR_email
                (Js.trim (default "" key)) (Js.trim (default "" key)))],
     inr row).
Proof.
  intros Hne Hhead. unfold resolveAccount.
  set (trimmed := Js.trim (default "" key)) in *.
  destruct (Js.truthy trimmed) eqn:Ht; [|apply truthy_false_iff in Ht; contradiction].
  cbn [negb]. rewrite await_get_eq, Hhead. reflexivity.
Qed.

(** C1 (amended).  When the trimmed key is not empty and some account's id
    or email equals the trimmed key byte for byte, [resolveAccount] issues
    the exact-match query only and returns an account of the store whose id
    or email equals the trimmed key; this is the given account whenever it is
    the only exact match.  No error is thrown, whatever the fuzzy query would
    have selected. *)
Theorem resolveAccount_exact db key row :
  Js.trim (default "" key) <> "" ->
  row ∈ accounts db ->
  exact_match (Js.trim (default "" key)) row ->
  exists row',
    resolveAccount db key =
      ([Db_get (SELECT_accounts_WHERE_id_OR_email
                  (Js.trim (default "" key)) (Js.trim (default "" key)))],
       inr row')
    /\ row' ∈ accounts db
    /\ exact_match (Js.trim (default "" key)) row'
    /\ ((forall other, other ∈ accounts db ->
           exact_match (Js.trim (default "" key)) other -> other = row) ->
        row' = row).
Proof.
  intros Hne Hin Hex.
  destruct (head (rows db (SELECT_accounts_WHERE_id_OR_email
                             (Js.trim (default "" key)) (Js.trim (default "" key)))))
    as [row'|] eqn:Hhead.
  - destruct (exact_head_Some _ _ _ Hhead) as [Hin' Hex'].
    exists row'. split; [apply resolveAccount_first_exact; assumption|].
    split; [exact Hin'|]. split; [exact Hex'|].
    intros Huniq. apply Huniq; assumption.
  - destruct (proj1 (exact_head_None _ _) Hhead row Hin Hex).
Qed.

End Exact.

(** ** The fuzzy query: LIKE against substring search *)

Section Like.

Import Resolver.
















End Like.

Section Fuzzy.

Import Calendar Resolver.

Implicit Types (db : DB) (key : option string) (row : AccountRow).


(** What [resolveAccount] does with a non-empty trimmed key that no account
    matches exactly: it runs the exact query, then the LIKE query, and decides
    on the number of rows the latter selects. *)
Lemma resolveAccount_fuzzy db key :
  Js.trim (default "" key) <> "" ->
  (forall row, row ∈ accounts db -> ~ exact_match (Js.trim (default "" key)) row) ->
  resolveAccount db key =
    ([Db_get (SELECT_accounts_WHERE_id_OR_email
                (Js.trim (default "" key)) (Js.trim (default "" key)));
      Db_all (SELECT_accounts_WHERE_LIKE
                ("%" +:+ Js.toLowerCase (Js.trim (default "" key)) +:+ "%")
                ("%" +:+ Js.toLowerCase (Js.trim (default "" key)) +:+ "%"))],
     match Sqlite.ORDER_BY email
             (filter (like_match ("%" +:+ Js.toLowerCase (Js.trim (default "" key)) +:+ "%"))
                     (accounts db)) with
     | [] => inl (AccountNotFoundError (Js.trim (default "" key)))
     | [c] => inr c
     | c :: c' :: cs =>
         inl (MultipleAccountsMatch (Js.trim (default "" key)) (email <$> c :: c' :: cs))
     end).
Proof.
  intros Hne Hnone.
  set (trimmed := Js.trim (default "" key)) in *.
  unfold resolveAccount. fold trimmed.
  destruct (Js.truthy trimmed) eqn:Ht; [|apply truthy_false_iff in Ht; contradiction].
  cbn [negb]. rewrite await_get_eq, (proj2 (exact_head_None db trimmed) Hnone).
  rewrite await_all_eq. cbn [rows]. unfold like_match.
  destruct (Sqlite.ORDER_BY email _) as [|c [|c' cs]]; reflexivity.
Qed.

End Fuzzy.

(** ** Envelope crypto *)

Section Envelope.

Import Crypto.

Lemma Z_of_byte_range b : 0 <= Z_of_byte b < 256.
Proof.
  unfold Z_of_byte. pose proof (Byte.to_N_bounded b). lia.
Qed.

Lemma Z_of_byte_of_Z z : Z_of_byte (byte_of_Z z) = z mod 256.
Proof.
  unfold Z_of_byte, byte_of_Z.
  assert (0 <= z mod 256 < 256) as Hr by (apply Z.mod_pos_bound; lia).
  destruct (Byte.of_N (Z.to_N (z mod 256))) as [b|] eqn:E.
  - apply Byte.to_of_N in E. simpl. rewrite E. lia.
  - apply Byte.of_N_None_iff in E. lia.
Qed.

Lemma byte_of_Z_of_byte b : byte_of_Z (Z_of_byte b) = b.
Proof.
  unfold byte_of_Z. rewrite Z.mod_small by apply Z_of_byte_range.
  unfold Z_of_byte. rewrite N2Z.id, Byte.of_to_N. reflexivity.
Qed.

Lemma lxor_byte_range a b : 0 <= a < 256 -> 0 <= b < 256 -> 0 <= Z.lxor a b < 256.
Proof.
  intros Ha Hb.
  assert (Z.lxor a b = Z.lxor a b mod 2 ^ 8) as ->.
  { apply Z.bits_inj'. intros i Hi.
    destruct (Z_lt_le_dec i 8) as [Hlt|Hge].
    - rewrite Z.mod_pow2_bits_low by lia. reflexivity.
    - rewrite Z.mod_pow2_bits_high by lia.
      rewrite Z.lxor_spec.
      rewrite <- (Z.mod_small a (2 ^ 8)), <- (Z.mod_small b (2 ^ 8)) by lia.
      rewrite !Z.mod_pow2_bits_high by lia. reflexivity. }
  apply Z.mod_pos_bound. lia.
Qed.

Lemma byte_xor_involutive b k : byte_xor (byte_xor b k) k = b.
Proof.
  unfold byte_xor. rewrite Z_of_byte_of_Z.
  rewrite Z.mod_small by (apply lxor_byte_range; apply Z_of_byte_range).
  rewrite Z.lxor_assoc, Z.lxor_nilpotent, Z.lxor_0_r.
  apply byte_of_Z_of_byte.
Qed.

Lemma length_be_bytes n z : length (be_bytes n z) = n.
Proof. unfold be_bytes. rewrite List.length_map, List.length_seq. reflexivity. Qed.

Variable aes256 : Buffer -> Z -> Z.

Lemma length_gctr key iv off data : length (gctr aes256 key iv off data) = length data.
Proof. unfold gctr. apply length_imap. Qed.

(** Counter mode is its own inverse. *)
Lemma gctr_involutive key iv off data :
  gctr aes256 key iv off (gctr aes256 key iv off data) = data.
Proof.
  unfold gctr. apply list_eq. intros i.
  rewrite !list_lookup_imap. destruct (data !! i) as [b|]; simpl; [|reflexivity].
  f_equal. apply byte_xor_involutive.
Qed.

Lemma length_gcm_tag key iv aad ct : length (gcm_tag aes256 key iv aad ct) = 16%nat.
Proof. apply length_be_bytes. Qed.

Lemma length_randomBytes n g : length (fst (randomBytes n g)) = n.
Proof. simpl. rewrite List.length_map, List.length_seq. reflexivity. Qed.

(** C4.  For a 32-byte key, any plaintext and any (or no) associated data,
    [encryptAesGcm] succeeds, whatever the random source delivers, and
    [decryptAesGcm] applied to the same key, the [iv], [tag] and [ct] it
    produced and the same associated data returns exactly the plaintext. *)
Theorem decryptAesGcm_encryptAesGcm (g : Rng) (key plaintext : Buffer) (aad : option Buffer) :
  length key = 32%nat ->
  exists sealed,
    fst (encryptAesGcm aes256 g key plaintext aad) = inr sealed /\
    decryptAesGcm aes256 key (iv sealed) (tag sealed) (ct sealed) aad = inr plaintext.
Proof.
  intros Hkey.
  assert (check_key_iv key (fst (randomBytes 12 g)) = None) as Hchk.
  { unfold check_key_iv. rewrite Hkey, length_randomBytes. reflexivity. }
  unfold encryptAesGcm, createCipheriv. rewrite Hchk.
  eexists. split; [reflexivity|].
  unfold decryptAesGcm, createDecipheriv. cbn [iv tag ct]. rewrite Hchk.
  unfold Decipher_setAuthTag, Cipher_getAuthTag. rewrite length_gcm_tag. cbn [valid_tag_length Nat.eqb Nat.leb orb andb].
  unfold Decipher_final, Decipher_update, Cipher_update, Cipher_final.
  destruct aad as [a|]; cbn -[gcm_tag gctr randomBytes];
    rewrite !app_nil_r, length_gcm_tag, gctr_involutive;
    rewrite (take_ge (gcm_tag _ _ _ _ _)) by (rewrite length_gcm_tag; lia);
    rewrite decide_True by reflexivity; rewrite ?app_nil_r; reflexivity.
Qed.

Variable scrypt : string -> Buffer -> Z -> Z -> Z -> Z -> Z -> Js.JsError + Buffer.

Lemma double_exact z : Z.abs z <= 2 ^ 53 -> Js.double z = z.
Proof.
  intros Hz. unfold Js.double. cbv zeta.
  destruct (Z.leb_spec (Z.abs z) (2 ^ 53)); [reflexivity|lia].
Qed.

(** Within [2^53] the arithmetic of [deriveKek] is exact. *)
Lemma deriveKek_ceilings_exact (params : KdfParams) :
  0 < N params -> 0 < r params -> 1024 * N params * r params <= 2 ^ 53 ->
  Z.max (64 * 1024 * 1024) (Js.mul (Js.mul (Js.mul 128 (N params)) (r params)) 2)
    = Z.max (64 * 1024 * 1024) (2 * (128 * N params * r params))
  /\ Z.max (Js.mul (64 * 1024 * 1024) 4) (Js.mul (Js.mul (Js.mul 128 (N params)) (r params)) 8)
     = Z.max (4 * (64 * 1024 * 1024)) (8 * (128 * N params * r params)).
Proof.
  intros HN Hr Hbound.
  assert (N params <= N params * r params) as H1 by nia.
  assert (0 < N params * r params) as H2 by nia.
  unfold Js.mul.
  rewrite (double_exact (128 * N params)) by lia.
  rewrite (double_exact (128 * N params * r params)) by lia.
  rewrite (double_exact (128 * N params * r params * 2)) by lia.
  rewrite (double_exact (128 * N params * r params * 8)) by lia.
  rewrite (double_exact (64 * 1024 * 1024 * 4)) by lia.
  split; f_equal; lia.
Qed.

(** C7 (amended).  For parameters [N] and [r] that are positive with
    [1024 * N * r] within [2^53], where the arithmetic on numbers is exact,
    [deriveKek] estimates the memory as [128 * N * r] and calls the KDF first
    with the ceiling [max (64 MiB) (2 * estimate)]; when that call succeeds
    its key is returned.  When it fails with an error whose message (or, for
    an empty message, whose name) contains "memory limit exceeded", or whose
    code contains "ERR_CRYPTO_SCRYPT_INVALID_PARAMETER", in any case of the
    letters, the KDF is called exactly once more, with the ceiling
    [max (4 * 64 MiB) (8 * estimate)], and the outcome of that call, key or
    error, is the outcome of [deriveKek].  Any other failure is rethrown
    after the single call.  Hence a derivation that needs more memory than
    the first ceiling but no more than the second, and whose failure is
    reported in one of these two ways, succeeds on the retry. *)
Theorem deriveKek_retry_policy (password : string) (salt : Buffer) (params : KdfParams) :
  0 < N params -> 0 < r params -> 1024 * N params * r params <= 2 ^ 53 ->
  let estimated := 128 * N params * r params in
  let first := Z.max (64 * 1024 * 1024) (2 * estimated) in
  let second := Z.max (4 * (64 * 1024 * 1024)) (8 * estimated) in
  let kdf := scrypt password salt (dkLen params) (N params) (r params) (p params) in
  let printed e := if Js.truthy (Js.message e) then Js.message e else Js.name e in
  let retried e :=
    Js.test_i "memory limit exceeded" (printed e)
    || Js.test_i "ERR_CRYPTO_SCRYPT_INVALID_PARAMETER" (default "" (Js.code e)) in
  (forall key, kdf first = inr key ->
     deriveKek scrypt password salt params = ([first], inr key)) /\
  (forall e, kdf first = inl e -> retried e = true ->
     deriveKek scrypt password salt params = ([first; second], kdf second)) /\
  (forall e, kdf first = inl e -> retried e = false ->
     deriveKek scrypt password salt params = ([first], inl e)) /\
  (forall e key needed,
     retried e = true ->
     (forall maxmem, kdf maxmem = if needed <=? maxmem then inr key else inl e) ->
     first < needed <= second ->
     deriveKek scrypt password salt params = ([first; second], inr key)).
Proof.
  intros HN Hr Hbound estimated first second kdf printed retried.
  destruct (deriveKek_ceilings_exact params HN Hr Hbound) as [E1 E2].
  fold estimated in E1, E2. fold first in E1. fold second in E2.
  assert (forall e, kdf first = inl e -> retried e = true ->
            deriveKek scrypt password salt params = ([first; second], kdf second)) as Hretry.
  { intros e He Hm. unfold deriveKek, tryOnce, Eff.catch. rewrite E1, E2.
    fold kdf. rewrite He. unfold memory_limit_exceeded. fold (printed e). fold (retried e).
    rewrite Hm. reflexivity. }
  repeat split.
  - intros key Hk. unfold deriveKek, tryOnce, Eff.catch. rewrite E1. fold kdf.
    rewrite Hk. reflexivity.
  - exact Hretry.
  - intros e He Hm. unfold deriveKek, tryOnce, Eff.catch. rewrite E1. fold kdf.
    rewrite He. unfold memory_limit_exceeded. fold (printed e). fold (retried e).
    rewrite Hm. reflexivity.
  - intros e key needed Hm Hkdf [Hlo Hhi].
    rewrite (Hretry e); [|rewrite Hkdf; destruct (Z.leb_spec needed first); [lia|reflexivity]|exact Hm].
    rewrite Hkdf. destruct (Z.leb_spec needed second); [reflexivity|lia].
Qed.

End Envelope.

(** ** Credentials and the read-only switch *)

Section Credentials.

Import Crypto Calendar.

Variable aes256 : Buffer -> Z -> Z.
Variable toString_utf8 : Buffer -> string.
Variable env : string -> option string.
Variable google : Client -> ApiCall -> Js.JsError + JsonValue.

Implicit Types (cfg : CalendarConfig) (cred : CredRow).

Lemma list_ascii_of_string_app (s t : string) :
  String.list_ascii_of_string (s +:+ t)
  = String.list_ascii_of_string s ++ String.list_ascii_of_string t.
Proof. induction s as [|c s IH]; simpl; [reflexivity|]. rewrite IH. reflexivity. Qed.

Lemma string_app_inj_r (s t u : string) : s +:+ u = t +:+ u -> s = t.
Proof.
  intros H. apply (f_equal String.list_ascii_of_string) in H.
  rewrite !list_ascii_of_string_app in H. apply app_inv_tail in H.
  rewrite <- (String.string_of_list_ascii_of_string s),
          <- (String.string_of_list_ascii_of_string t), H.
  reflexivity.
Qed.

(** Distinct accounts have distinct associated data. *)
Lemma aad_of_inj (a b : string) : aad_of a = aad_of b -> a = b.
Proof.
  unfold aad_of. intros H.
  apply (f_equal String.string_of_list_byte) in H.
  rewrite !String.string_of_list_byte_of_string in H.
  apply (inj (String.append "credentials.refresh_token:")) in H.
  apply string_app_inj_r in H. exact H.
Qed.

Lemma if_truthy_Some (token : string) : token <> "" -> Js.if_truthy (Some token) = Some token.
Proof. destruct token; [congruence|reflexivity]. Qed.

(** The first step of every proof about [getCalendarClient]: run the query
    for the credential row. *)
Ltac run_credentials_query :=
  unfold getCalendarClient, await_get, Db.get, Db.step, stmt_get, connection, rows;
  cbn [Db.txn Db.committed fst].


Lemma getCalendarClient_plaintext cfg accountId cred token :
  credentials (db cfg) !! accountId = Some cred ->
  Js.if_truthy (refresh_token cred) = Some token ->
  getCalendarClient aes256 toString_utf8 env cfg accountId =
    ([Db_get (SELECT_credentials_WHERE_account_id accountId)], inr (client_of env token)).
Proof.
  intros Hrow Htok. run_credentials_query. rewrite Hrow. simpl.
  rewrite Htok. reflexivity.
Qed.

Lemma getCalendarClient_locked cfg accountId cred :
  credentials (db cfg) !! accountId = Some cred ->
  Js.if_truthy (refresh_token cred) = None ->
  dek cfg = None ->
  getCalendarClient aes256 toString_utf8 env cfg accountId =
    ([Db_get (SELECT_credentials_WHERE_account_id accountId)], inl DatabaseLockedError).
Proof.
  intros Hrow Htok Hdek. run_credentials_query. rewrite Hrow. simpl.
  rewrite Htok, Hdek. reflexivity.
Qed.

Lemma getCalendarClient_encrypted cfg accountId cred key :
  credentials (db cfg) !! accountId = Some cred ->
  Js.if_truthy (refresh_token cred) = None ->
  dek cfg = Some key ->
  getCalendarClient aes256 toString_utf8 env cfg accountId =
    ([Db_get (SELECT_credentials_WHERE_account_id accountId);
      Call_decryptAesGcm key (refresh_token_iv cred) (refresh_token_tag cred)
        (refresh_token_ct cred) (aad_of accountId)],
     match snd (call_decryptAesGcm aes256 key (refresh_token_iv cred)
                  (refresh_token_tag cred) (refresh_token_ct cred) (aad_of accountId)) with
     | inl e => inl e
     | inr pt => inr (client_of env (toString_utf8 pt))
     end).
Proof.
  intros Hrow Htok Hdek. run_credentials_query. rewrite Hrow. simpl.
  rewrite Htok, Hdek. simpl.
  destruct (match refresh_token_iv cred with Some _ => _ | None => _ end); reflexivity.
Qed.


(** C10.  For a row whose [refresh_token] column holds a non-empty string,
    [getCalendarClient] builds the client around that string, whatever the
    encrypted columns and the DEK are: its only collaborator call is the
    query, [decryptAesGcm] is not called.  A row whose [refresh_token] is the
    empty string is handled as one without plaintext: without a DEK the
    "database is locked" error is thrown, with a DEK the decrypt routine is
    called on the encrypted columns. *)
Theorem getCalendarClient_plaintext_first cfg accountId cred :
  credentials (db cfg) !! accountId = Some cred ->
  (forall token,
     refresh_token cred = Some token -> token <> "" ->
     getCalendarClient aes256 toString_utf8 env cfg accountId =
       ([Db_get (SELECT_credentials_WHERE_account_id accountId)], inr (client_of env token)))
  /\
  (refresh_token cred = Some "" ->
   (dek cfg = None ->
    getCalendarClient aes256 toString_utf8 env cfg accountId =
      ([Db_get (SELECT_credentials_WHERE_account_id accountId)], inl DatabaseLockedError))
   /\
   (forall key, dek cfg = Some key ->
      Eff.trace (getCalendarClient aes256 toString_utf8 env cfg accountId) =
        [Db_get (SELECT_credentials_WHERE_account_id accountId);
         Call_decryptAesGcm key (refresh_token_iv cred) (refresh_token_tag cred)
           (refresh_token_ct cred) (aad_of accountId)])).
Proof.
  intros Hrow. split.
  - intros token Htok Hne.
    apply (getCalendarClient_plaintext cfg accountId cred token); auto.
    rewrite Htok. apply if_truthy_Some, Hne.
  - intros Htok. split.
    + intros Hdek. apply (getCalendarClient_locked cfg accountId cred); auto.
      rewrite Htok. reflexivity.
    + intros key Hdek.
      rewrite (getCalendarClient_encrypted cfg accountId cred key); auto.
      rewrite Htok. reflexivity.
Qed.

(** C9.  With [readOnly] set, [createEvent], [updateEvent] and [deleteEvent]
    throw "Server is in read-only mode" without any collaborator call: no
    query, no decryption, no request.  [listAccounts], [resolveAccount],
    [listEvents] and [getEvent] do not depend on the flag: two configurations
    that differ in nothing else give the same calls and the same result. *)
Theorem readOnly_blocks_only_writes cfg :
  (readOnly cfg = Some true ->
   forall accountId calendarId eventId event patch,
     createEvent aes256 toString_utf8 env google cfg accountId calendarId event
       = ([], inl ReadOnlyError) /\
     updateEvent aes256 toString_utf8 env google cfg accountId calendarId eventId patch
       = ([], inl ReadOnlyError) /\
     deleteEvent aes256 toString_utf8 env google cfg accountId calendarId eventId
       = ([], inl ReadOnlyError))
  /\
  (forall flag key accountId calendarId eventId opts,
     let cfg' := {| db := db cfg; dek := dek cfg; readOnly := flag |} in
     let cfg0 := {| db := db cfg; dek := dek cfg; readOnly := Some false |} in
     listAccounts (db cfg') = listAccounts (db cfg0) /\
     resolveAccount (db cfg') key = resolveAccount (db cfg0) key /\
     listEvents aes256 toString_utf8 env google cfg' accountId calendarId opts
       = listEvents aes256 toString_utf8 env google cfg0 accountId calendarId opts /\
     getEvent aes256 toString_utf8 env google cfg' accountId calendarId eventId
       = getEvent aes256 toString_utf8 env google cfg0 accountId calendarId eventId).
Proof.
  split.
  - intros Hro accountId calendarId eventId event patch.
    unfold createEvent, updateEvent, deleteEvent, is_readOnly. rewrite Hro. auto.
  - intros flag key accountId calendarId eventId opts cfg' cfg0.
    repeat split; reflexivity.
Qed.

End Credentials.

(** ** Transactions *)

Section Transactions.

Import Db.

Context {Store : Type}.

Implicit Types (s w : Store) (c : Conn Store).

Lemma ROLLBACK_closes c :
  snd (exec ROLLBACK c) = {| committed := committed c; txn := None |}.
Proof. destruct c as [s [w|]]; reflexivity. Qed.

(** Inside an open transaction the body works on the working copy only: when
    it completes, the working copy holds all its mutations; when it throws,
    the persisted store is still the one the transaction started from. *)
Lemma perform_in_transaction {T} (body : Body Store T) s w :
  match effect body w with
  | inr (out, w') =>
      perform body {| committed := s; txn := Some w |}
      = (inr out, {| committed := s; txn := Some w' |})
  | inl e =>
      exists c, perform body {| committed := s; txn := Some w |} = (inl e, c)
                /\ committed c = s
  end.
Proof.
  revert w. induction body as [out|e|R st k IH]; intros w; simpl.
  - reflexivity.
  - eauto.
  - unfold step. simpl. destruct (st w) as [r w'|e [|]]; simpl; eauto.
    apply IH.
Qed.

(** C8.  Started on a connection with no open transaction, [tx] applied to
    a body of store mutations either returns the value of the body and
    leaves as persisted store the result of all mutations of the body,
    committed at once, or, when the body throws, rethrows that error and
    leaves the persisted store as it was, with no transaction open.  Nothing
    in between is ever persisted. *)
Theorem tx_atomic {T} (body : Body Store T) s :
  tx (perform body) {| committed := s; txn := None |} =
    match effect body s with
    | inr (out, s') => (inr out, {| committed := s'; txn := None |})
    | inl e => (inl e, {| committed := s; txn := None |})
    end.
Proof.
  unfold tx.
  change (exec BEGIN_IMMEDIATE {| committed := s; txn := None |})
    with (inr (A := Js.JsError) tt, {| committed := s; txn := Some s |}).
  cbv iota beta.
  pose proof (perform_in_transaction body s s) as H.
  destruct (effect body s) as [e|[out s']].
  - destruct H as (c & -> & Hc). rewrite ROLLBACK_closes, Hc. reflexivity.
  - rewrite H. reflexivity.
Qed.

End Transactions.

(** ** The theorems at concrete inputs *)

Section Instances.

Import Crypto Calendar Resolver Examples.

(** The GCM model against the published test vector: AES-256-GCM test case
    14 (all-zero key and IV, sixteen zero bytes of plaintext, no associated
    data) has ciphertext [cea7403d4d606b6e074ec5d3baf39d18] and tag
    [d0d1c8a799996bf0265b98b5d48ab919]. *)
Example encryptAesGcm_test_case_14 :
  fst (encryptAesGcm aes256_zero_key zero_rng zero_key zero_block None) =
    inr {| ct := be_bytes 16 0xcea7403d4d606b6e074ec5d3baf39d18;
           iv := replicate 12 Byte.x00;
           tag := be_bytes 16 0xd0d1c8a799996bf0265b98b5d48ab919 |}.
Proof. vm_compute. reflexivity. Qed.

(** The resolver on the two accounts of the specification's example: the
    full email wins over the fuzzy matches, an empty key is ambiguous, an
    unknown key is not found, and ["ab"] selects account 2 as the only fuzzy
    match. *)
Example resolveAccount_precedence :
  snd (resolveAccount two_accounts (Some "a@x.com")) = inr account_1 /\
  snd (resolveAccount two_accounts (Some "")) = inl MultipleAccountsLinked /\
  snd (resolveAccount two_accounts (Some "nomatch")) = inl (AccountNotFoundError "nomatch") /\
  snd (resolveAccount two_accounts (Some "ab")) = inr account_2 /\
  snd (resolveAccount two_accounts (Some "X.COM"))
    = inl (MultipleAccountsMatch "X.COM" ["a@x.com"; "ab@x.com"]).
Proof. repeat split; reflexivity. Qed.

(** C3 at the store with one account and a blank key. *)
Lemma resolveAccount_empty_key_witness :
  Js.trim (default "" (Some "  ")) = "" /\
  resolveAccount one_account (Some "  ") =
    ([Db_all SELECT_accounts_ORDER_BY_email], inr account_1).
Proof.
  split; [reflexivity|].
  apply (resolveAccount_empty_key one_account (Some "  ")). reflexivity.
Defined.

(** C1 as stated fails in two ways.  The key is compared after trimming:
    the account whose id is [" x "] is not found under the key [" x "],
    because the lookup uses ["x"].  And "that account" is not determined when
    the key is the id of one account and the email of another: one of the two
    is returned, here the one found by its id, so the other one is not. *)
Lemma resolveAccount_untrimmed_key_counterexample :
  (Js.trim " x " <> "" /\
   account_padded ∈ accounts padded_account /\
   id account_padded = " x " /\
   resolveAccount padded_account (Some " x ") =
     ([Db_get (SELECT_accounts_WHERE_id_OR_email "x" "x");
       Db_all (SELECT_accounts_WHERE_LIKE "%x%" "%x%")],
      inl (AccountNotFoundError "x")))
  /\
  (Js.trim "me@x.org" <> "" /\
   account_by_email ∈ accounts shared_key /\
   email account_by_email = "me@x.org" /\
   resolveAccount shared_key (Some "me@x.org") =
     ([Db_get (SELECT_accounts_WHERE_id_OR_email "me@x.org" "me@x.org")],
      inr account_by_id) /\
   account_by_id <> account_by_email).
Proof.
  split.
  - split; [discriminate|]. split; [left|]. split; reflexivity.
  - split; [discriminate|]. split; [right; left|]. split; [reflexivity|].
    split; [reflexivity|discriminate].
Qed.

(** C1 (amended) on the example of the specification: the key ["a@x.com"]
    is the email of account 1 and, as ["a"] is account 2's display name, the
    fuzzy query would select both accounts for the key ["a"]; the exact match
    returns account 1. *)
Lemma resolveAccount_exact_witness :
  Js.trim (default "" (Some " a@x.com ")) <> "" /\
  account_1 ∈ accounts two_accounts /\
  exact_match (Js.trim (default "" (Some " a@x.com "))) account_1 /\
  exists row',
    resolveAccount two_accounts (Some " a@x.com ") =
      ([Db_get (SELECT_accounts_WHERE_id_OR_email "a@x.com" "a@x.com")], inr row')
    /\ row' ∈ accounts two_accounts
    /\ exact_match "a@x.com" row'
    /\ ((forall other, other ∈ accounts two_accounts ->
           exact_match "a@x.com" other -> other = account_1) ->
        row' = account_1).
Proof.
  assert (Js.trim (default "" (Some " a@x.com ")) <> "") as H1 by discriminate.
  assert (account_1 ∈ accounts two_accounts) as H2 by (right; left).
  assert (exact_match (Js.trim (default "" (Some " a@x.com "))) account_1) as H3
    by (right; reflexivity).
  split; [exact H1|]. split; [exact H2|]. split; [exact H3|].
  exact (resolveAccount_exact two_accounts (Some " a@x.com ") account_1 H1 H2 H3).
Defined.

(** C2 fails on a key that contains a LIKE wildcard: the key ["_"] is no
    substring of account 1's email (it has no display name) and equals
    neither its id nor its email, yet [resolveAccount] returns account 1,
    because [_] in the pattern matches any character. *)
Lemma resolveAccount_underscore_wildcard :
  resolveAccount one_account (Some "_") =
    ([Db_get (SELECT_accounts_WHERE_id_OR_email "_" "_");
      Db_all (SELECT_accounts_WHERE_LIKE "%_%" "%_%")],
     inr account_1)
  /\ ~ exact_match "_" account_1
  /\ ~ substring_match "_" account_1.
Proof.
  split; [reflexivity|]. split.
  - intros [H|H]; discriminate H.
  - intros [H|H]; discriminate H.
Qed.

(** C4 on test case 14. *)
Lemma decryptAesGcm_encryptAesGcm_witness :
  length zero_key = 32%nat /\
  exists sealed,
    fst (encryptAesGcm aes256_zero_key zero_rng zero_key zero_block None) = inr sealed /\
    decryptAesGcm aes256_zero_key zero_key (iv sealed) (tag sealed) (ct sealed) None
      = inr zero_block.
Proof.
  split; [reflexivity|].
  apply (decryptAesGcm_encryptAesGcm aes256_zero_key zero_rng zero_key zero_block None).
  reflexivity.
Defined.

(** C7 on a derivation estimated at 16 MiB that needs 100 MiB: the first
    ceiling is 64 MiB, the second 256 MiB, and the key comes from the second
    call. *)
Lemma deriveKek_retry_policy_witness :
  (0 < N params_16MiB /\ 0 < r params_16MiB /\
   1024 * N params_16MiB * r params_16MiB <= 2 ^ 53) /\
  Js.test_i "memory limit exceeded" (Js.message memory_error) = true /\
  (forall maxmem,
     scrypt_100MiB "pw" [] 32 16384 8 1 maxmem
     = if 100 * 1024 * 1024 <=? maxmem then inr zero_key else inl memory_error) /\
  64 * 1024 * 1024 < 100 * 1024 * 1024 <= 256 * 1024 * 1024 /\
  deriveKek scrypt_100MiB "pw" [] params_16MiB
    = ([64 * 1024 * 1024; 256 * 1024 * 1024], inr zero_key).
Proof.
  assert (0 < N params_16MiB) as HN by reflexivity.
  assert (0 < r params_16MiB) as Hr by reflexivity.
  assert (1024 * N params_16MiB * r params_16MiB <= 2 ^ 53) as Hbound
    by (vm_compute; discriminate).
  split; [auto|]. split; [vm_compute; reflexivity|]. split; [intros maxmem; reflexivity|].
  split; [lia|].
  apply (proj2 (proj2 (proj2 (deriveKek_retry_policy scrypt_100MiB "pw" [] params_16MiB
                                HN Hr Hbound)))
           memory_error zero_key (100 * 1024 * 1024)).
  - vm_compute. reflexivity.
  - intros maxmem. reflexivity.
  - vm_compute. split; [reflexivity|discriminate].
Defined.

(** C7 as stated fails in two ways.  A failure that no ceiling avoids, a
    cost [N = 3] refused under the code ERR_CRYPTO_SCRYPT_INVALID_PARAMETER,
    is not rethrown after the first call: the KDF is called a second time.
    And the estimate is [128 * N * r] only while that product is a double:
    at [N = r = 2^32 - 1] the estimate is 128 less, and the two ceilings 256
    and 1024 less than twice and eight times the product. *)
Lemma deriveKek_retry_policy_counterexample :
  ((forall maxmem,
      scrypt_strict "pw" [] (dkLen params_N_3) (N params_N_3) (r params_N_3) (p params_N_3)
        maxmem = inl invalid_parameter_error)
   /\ deriveKek scrypt_strict "pw" [] params_N_3
       = ([64 * 1024 * 1024; 256 * 1024 * 1024], inl invalid_parameter_error))
  /\
  fst (deriveKek scrypt_strict "pw" [] params_2_32)
  = [2 * (128 * N params_2_32 * r params_2_32) - 256;
     8 * (128 * N params_2_32 * r params_2_32) - 1024].
Proof.
  split; [split|].
  - intros maxmem. reflexivity.
  - vm_compute. reflexivity.
  - vm_compute. reflexivity.
Qed.


(** C10 on the row of account ["3"], which holds both a plaintext token and
    encrypted columns, and on the row of account ["4"], whose plaintext is
    the empty string. *)
Lemma getCalendarClient_plaintext_first_witness :
  (credentials (db cfg_with_dek) !! "3" = Some cred_both /\
   refresh_token cred_both = Some "1//token" /\
   getCalendarClient aes256_zero_key String.string_of_list_byte no_env cfg_with_dek "3"
     = ([Db_get (SELECT_credentials_WHERE_account_id "3")],
        inr (client_of no_env "1//token")))
  /\
  (credentials (db cfg_unlocked) !! "4" = Some cred_empty_plain /\
   refresh_token cred_empty_plain = Some "" /\
   dek cfg_unlocked = None /\
   getCalendarClient aes256_zero_key String.string_of_list_byte no_env cfg_unlocked "4"
     = ([Db_get (SELECT_credentials_WHERE_account_id "4")], inl DatabaseLockedError)).
Proof.
  split.
  - split; [reflexivity|]. split; [reflexivity|].
    apply (proj1 (getCalendarClient_plaintext_first aes256_zero_key
                    String.string_of_list_byte no_env cfg_with_dek "3" cred_both eq_refl)
             "1//token"); [reflexivity|discriminate].
  - split; [reflexivity|]. split; [reflexivity|]. split; [reflexivity|].
    apply (proj1 (proj2 (getCalendarClient_plaintext_first aes256_zero_key
                           String.string_of_list_byte no_env cfg_unlocked "4"
                           cred_empty_plain eq_refl) eq_refl)).
    reflexivity.
Defined.

(** C9 on the read-only configuration of the example store. *)
Lemma readOnly_blocks_only_writes_witness :
  readOnly cfg_readOnly = Some true /\
  createEvent aes256_zero_key String.string_of_list_byte no_env silent_service
    cfg_readOnly "1" "primary" JNull = ([], inl ReadOnlyError) /\
  updateEvent aes256_zero_key String.string_of_list_byte no_env silent_service
    cfg_readOnly "1" "primary" "event-1" JNull = ([], inl ReadOnlyError) /\
  deleteEvent aes256_zero_key String.string_of_list_byte no_env silent_service
    cfg_readOnly "1" "primary" "event-1" = ([], inl ReadOnlyError).
Proof.
  split; [reflexivity|].
  apply (proj1 (readOnly_blocks_only_writes aes256_zero_key String.string_of_list_byte
                  no_env silent_service cfg_readOnly) eq_refl
           "1" "primary" "event-1" JNull JNull).
Defined.

(** [migrate] on an empty database file: the four tables and the key
    material row are committed together. *)
Example migrate_empty :
  Db.migrate {| Db.committed := {| Db.tables := ∅; Db.encryption_meta := None |};
                Db.txn := None |}
  = (inr tt,
     {| Db.committed :=
          {| Db.tables := {[ "settings"; "encryption_meta"; "credentials"; "accounts" ]};
             Db.encryption_meta :=
               Some {| Db.is_locked := 0; Db.version := 1; Db.kdf := "scrypt";
                       Db.kdf_salt := None; Db.kdf_params_json := None;
                       Db.dek_ct := None; Db.dek_iv := None; Db.dek_tag := None;
                       Db.password_hint := None |} |};
        Db.txn := None |}).
Proof. vm_compute. reflexivity. Qed.

End Instances.

(** * Further properties *)

(** ** Trimming *)

Section Trim.

Lemma strip_prefix_app t s r : Js.strip_prefix t s = Some r <-> s = t +:+ r.
Proof.
  revert s. induction t as [|a t IH]; intros s; simpl.
  - split; [intros [= ->]; reflexivity | intros ->; reflexivity].
  - destruct s as [|b s]; [split; discriminate|].
    destruct (decide (a = b)) as [->|Hne].
    + rewrite IH. split; [intros ->; reflexivity | intros [= ->]; reflexivity].
    + split; [discriminate | intros [= ? ?]; congruence].
Qed.

Lemma strip_one_Some tokens s r :
  Js.strip_one tokens s = Some r -> exists t, t ∈ tokens /\ s = t +:+ r.
Proof.
  induction tokens as [|t tokens IH]; simpl; [discriminate|].
  destruct (Js.strip_prefix t s) as [r'|] eqn:E.
  - intros [= ->]. exists t. split; [left|]. apply strip_prefix_app, E.
  - intros H. destruct (IH H) as (t' & Hin & Hs). exists t'. split; [right; exact Hin|exact Hs].
Qed.

Lemma strip_one_None tokens s t r :
  Js.strip_one tokens s = None -> t ∈ tokens -> s <> t +:+ r.
Proof.
  induction tokens as [|t' tokens IH]; simpl; intros H Hin Hs.
  - by apply elem_of_nil in Hin.
  - destruct (Js.strip_prefix t' s) as [r'|] eqn:E; [discriminate|].
    apply elem_of_cons in Hin as [->|Hin].
    + apply strip_prefix_app in Hs. congruence.
    + exact (IH H Hin Hs).
Qed.

Lemma string_app_cons c (s t : string) : String c s +:+ t = String c (s +:+ t).
Proof. reflexivity. Qed.

Lemma length_app_string (s t : string) :
  String.length (s +:+ t) = (String.length s + String.length t)%nat.
Proof.
  induction s as [|c s IH]; [reflexivity|]. rewrite string_app_cons. simpl. rewrite IH.
  reflexivity.
Qed.

Lemma string_app_assoc (a b c : string) : (a +:+ b) +:+ c = a +:+ (b +:+ c).
Proof.
  induction a as [|x a IH]; [reflexivity|]. rewrite !string_app_cons, IH. reflexivity.
Qed.

Lemma strip_all_fixed fuel tokens s :
  Js.strip_one tokens s = None -> Js.strip_all fuel tokens s = s.
Proof. intros H. destruct fuel; simpl; [reflexivity|]. rewrite H. reflexivity. Qed.

(** With fuel for every byte and no empty token, stripping ends on a string
    that starts with no token, and which is a suffix of the given one. *)
Lemma strip_all_spec fuel tokens s :
  Forall (fun t => t <> "") tokens ->
  (String.length s <= fuel)%nat ->
  Js.strip_one tokens (Js.strip_all fuel tokens s) = None
  /\ exists p, s = p +:+ Js.strip_all fuel tokens s.
Proof.
  intros Hne. revert s. induction fuel as [|fuel IH]; intros s Hlen; simpl.
  - destruct s; [|simpl in Hlen; lia]. split; [|exists ""; reflexivity].
    destruct (Js.strip_one tokens "") as [r|] eqn:E; [|reflexivity].
    apply strip_one_Some in E as (t & Hin & Hs).
    rewrite Forall_forall in Hne. specialize (Hne t Hin).
    destruct t; [contradiction|discriminate].
  - destruct (Js.strip_one tokens s) as [r|] eqn:E.
    + apply strip_one_Some in E as (t & Hin & ->).
      rewrite Forall_forall in Hne. pose proof (Hne t Hin) as Ht.
      rewrite length_app_string in Hlen.
      destruct (IH r) as (H1 & p & Hp).
      { destruct t; [contradiction|]. simpl in Hlen. lia. }
      split; [exact H1|]. exists (t +:+ p).
      rewrite string_app_assoc, <- Hp. reflexivity.
    + split; [exact E|]. exists "". reflexivity.
Qed.

Lemma string_app_nil_r (s : string) : s +:+ "" = s.
Proof. induction s as [|c s IH]; [reflexivity|]. rewrite string_app_cons, IH. reflexivity. Qed.

Lemma rev_app_spec (s t : string) : String.rev_app s t = String.rev s +:+ t.
Proof.
  revert t. induction s as [|a s IH]; intros t; [reflexivity|].
  unfold String.rev. simpl. rewrite IH, (IH (String a "")), string_app_assoc. reflexivity.
Qed.

Lemma rev_cons a (s : string) : String.rev (String a s) = String.rev s +:+ String a "".
Proof. unfold String.rev at 1. simpl. apply rev_app_spec. Qed.

Lemma rev_app_string (s t : string) : String.rev (s +:+ t) = String.rev t +:+ String.rev s.
Proof.
  induction s as [|a s IH].
  - rewrite string_app_nil_r. reflexivity.
  - rewrite string_app_cons, !rev_cons, IH, string_app_assoc. reflexivity.
Qed.

Lemma rev_involutive (s : string) : String.rev (String.rev s) = s.
Proof.
  induction s as [|a s IH]; [reflexivity|].
  rewrite rev_cons, rev_app_string, IH. reflexivity.
Qed.

Lemma white_space_nonempty : Forall (fun t => t <> "") Js.white_space.
Proof. repeat constructor; discriminate. Qed.

Lemma white_space_rev_nonempty : Forall (fun t => t <> "") (String.rev <$> Js.white_space).
Proof. repeat constructor; discriminate. Qed.

Lemma trimStart_spec s :
  Js.strip_one Js.white_space (Js.trimStart s) = None /\ exists p, s = p +:+ Js.trimStart s.
Proof. apply strip_all_spec; [apply white_space_nonempty|lia]. Qed.

Lemma trimEnd_spec s :
  Js.strip_one (String.rev <$> Js.white_space) (String.rev (Js.trimEnd s)) = None
  /\ exists p, s = Js.trimEnd s +:+ p.
Proof.
  unfold Js.trimEnd. rewrite rev_involutive.
  destruct (strip_all_spec (String.length s) (String.rev <$> Js.white_space) (String.rev s))
    as (H & p & Hp); [apply white_space_rev_nonempty| |].
  { clear. induction s as [|a s IH]; [reflexivity|].
    rewrite rev_cons, length_app_string. simpl. lia. }
  split; [exact H|]. exists (String.rev p).
  rewrite <- rev_app_string, <- Hp, rev_involutive. reflexivity.
Qed.

Lemma trimStart_fixed s : Js.strip_one Js.white_space s = None -> Js.trimStart s = s.
Proof. apply strip_all_fixed. Qed.

Lemma trimEnd_fixed s :
  Js.strip_one (String.rev <$> Js.white_space) (String.rev s) = None -> Js.trimEnd s = s.
Proof.
  intros H. unfold Js.trimEnd. rewrite strip_all_fixed by exact H. apply rev_involutive.
Qed.

(** Trimming twice is trimming once. *)
Lemma trim_idempotent s : Js.trim (Js.trim s) = Js.trim s.
Proof.
  unfold Js.trim.
  destruct (trimStart_spec s) as (Hstart & _).
  destruct (trimEnd_spec (Js.trimStart s)) as (Hend & p & Hp).
  set (u := Js.trimStart s) in *. set (v := Js.trimEnd u) in *.
  assert (Js.trimStart v = v) as ->.
  { apply trimStart_fixed.
    destruct (Js.strip_one Js.white_space v) as [r|] eqn:E; [|reflexivity].
    apply strip_one_Some in E as (t & Hin & Hv).
    exfalso. apply (strip_one_None _ _ t (r +:+ p) Hstart Hin).
    rewrite Hp, Hv, string_app_assoc. reflexivity. }
  apply trimEnd_fixed, Hend.
Qed.

End Trim.

(** ** More on account lookup *)

Section Lookup.

Import Calendar Resolver.

Implicit Types (db : DB) (key : option string) (row : AccountRow).

Lemma truthy_toLowerCase (s : string) : Js.truthy (Js.toLowerCase s) = Js.truthy s.
Proof. destruct s; reflexivity. Qed.


Lemma head_filter_Some {A} (P : A -> Prop) `{!forall x, Decision (P x)} (l : list A) (x : A) :
  head (filter P l) = Some x -> x ∈ l /\ P x.
Proof.
  intros Hhead. destruct (filter P l) as [|y l'] eqn:E; [discriminate|].
  injection Hhead as Hy. subst y.
  assert (x ∈ filter P l) as Hf by (rewrite E; left).
  apply list_elem_of_filter in Hf. tauto.
Qed.

(** X1.  [listAccounts] runs one query and returns every stored account
    exactly once, in ascending byte order of the emails. *)
Theorem listAccounts_complete_sorted db :
  exists rows,
    listAccounts db = ([Db_all SELECT_accounts_ORDER_BY_email], inr rows)
    /\ rows ≡ₚ accounts db
    /\ StronglySorted by_email rows.
Proof.
  exists (Sqlite.ORDER_BY email (accounts db)).
  split; [reflexivity|]. split; [apply ORDER_BY_Permutation|apply ORDER_BY_sorted].
Qed.

(** X2.  [getAccountByKey] compares the key as it is given, without
    trimming: it finds nothing exactly when no stored account has the key as
    its id or as its email, and an account it finds is stored and has the key
    as its id or email. *)
Theorem getAccountByKey_exact db (k : string) :
  (snd (getAccountByKey db k) = inr None <->
   forall row, row ∈ accounts db -> ~ exact_match k row)
  /\
  (forall row, snd (getAccountByKey db k) = inr (Some row) ->
     row ∈ accounts db /\ exact_match k row).
Proof.
  unfold getAccountByKey. rewrite await_get_eq. cbn [snd]. split.
  - split.
    + intros [= H]. apply exact_head_None, H.
    + intros H. f_equal. apply exact_head_None, H.
  - intros row [= H]. apply exact_head_Some, H.
Qed.

(** X3.  On ASCII text (the trimmed key, and the emails and display names
    of the stored accounts), an account that [resolveAccount] returns is a
    stored account, and it is returned for one of three reasons: the trimmed
    key is empty and it is the only account; or its id or email equals the
    trimmed key; or no account has that id or email, and it is the one
    account selected by the LIKE query on the case-folded trimmed key. *)
Theorem resolveAccount_sound db key row (t : list Event) :
  Js.is_ascii (Js.trim (default "" key)) = true ->
  Forall (fun account => ascii_account account = true) (accounts db) ->
  resolveAccount db key = (t, inr row) ->
  row ∈ accounts db /\
  ((Js.trim (default "" key) = "" /\ accounts db = [row])
   \/ exact_match (Js.trim (default "" key)) row
   \/ ((forall other, other ∈ accounts db ->
          ~ exact_match (Js.trim (default "" key)) other)
       /\ filter (like_match ("%" +:+ Js.toLowerCase (Js.trim (default "" key)) +:+ "%"))
            (accounts db) = [row])).
Proof.
  intros _ _.
  set (trimmed := Js.trim (default "" key)).
  destruct (decide (trimmed = "")) as [Hblank|Hne].
  - unfold resolveAccount. fold trimmed. rewrite Hblank. simpl.
    destruct (accounts db) as [|x [|y l]].
    + rewrite ORDER_BY_nil. discriminate.
    + rewrite ORDER_BY_singleton. intros [= ? ?]; subst. split; [left|]. left. auto.
    + destruct (ORDER_BY_two_or_more email x y l) as (x' & y' & l' & ->). discriminate.
  - destruct (head (rows db (SELECT_accounts_WHERE_id_OR_email trimmed trimmed)))
      as [x|] eqn:E.
    + destruct (exact_head_Some _ _ _ E) as [Hin Hx].
      rewrite (resolveAccount_first_exact db key x Hne E). intros [= _ ->]. auto.
    + pose proof (proj1 (exact_head_None db trimmed) E) as Hnone.
      rewrite (resolveAccount_fuzzy db key Hne Hnone). fold trimmed.
      set (pattern := "%" +:+ Js.toLowerCase trimmed +:+ "%").
      pose proof (ORDER_BY_Permutation email (filter (like_match pattern) (accounts db))) as HP.
      destruct (Sqlite.ORDER_BY email (filter (like_match pattern) (accounts db)))
        as [|c [|c' cs]]; intros [= ? ?]; subst.
      apply Permutation_singleton_l in HP.
      assert (row ∈ filter (like_match pattern) (accounts db)) as Hin by (rewrite <- HP; left).
      apply list_elem_of_filter in Hin as [_ Hin].
      split; [exact Hin|]. right. right. split; [exact Hnone|]. symmetry. exact HP.
Qed.



(** X6.  White space around the key is without effect: the key and its
    trimmed form resolve alike, with the same queries and the same result. *)
Theorem resolveAccount_trimmed_key db (k : string) :
  resolveAccount db (Some (Js.trim k)) = resolveAccount db (Some k).
Proof.
  unfold resolveAccount.
  change (default "" (Some (Js.trim k))) with (Js.trim k).
  change (default "" (Some k)) with k.
  rewrite trim_idempotent. reflexivity.
Qed.


End Lookup.

(** ** The account tools *)

Section AccountTools.

Import Calendar Resolver.

Implicit Types (db : DB) (query : option string) (row : AccountRow).

(** What [searchAccounts] does on a key that is already trimmed. *)
Lemma searchAccounts_trimmed db (s : string) :
  searchAccounts db (Some (Js.trim s)) =
    if Js.truthy (Js.trim s)
    then ([Db_all (SELECT_accounts_WHERE_LIKE ("%" +:+ Js.toLowerCase (Js.trim s) +:+ "%")
                     ("%" +:+ Js.toLowerCase (Js.trim s) +:+ "%"))],
          inr (Sqlite.ORDER_BY email
                 (filter (like_match ("%" +:+ Js.toLowerCase (Js.trim s) +:+ "%"))
                    (accounts db))))
    else ([Db_all SELECT_accounts_ORDER_BY_email], inr (Sqlite.ORDER_BY email (accounts db))).
Proof.
  unfold searchAccounts.
  change (default "" (Some (Js.trim s))) with (Js.trim s).
  rewrite trim_idempotent, truthy_toLowerCase.
  destruct (Js.truthy (Js.trim s)); reflexivity.
Qed.

Lemma elem_of_ORDER_BY {A} (f : A -> string) (l : list A) (x : A) :
  x ∈ Sqlite.ORDER_BY f l <-> x ∈ l.
Proof. rewrite ORDER_BY_Permutation. reflexivity. Qed.


(** The result of the handler, query by query. *)
Lemma gcal_resolve_account_result db query :
  let q := Js.trim (default "" query) in
  let found :=
    if Js.truthy q
    then Sqlite.ORDER_BY email
           (filter (like_match ("%" +:+ Js.toLowerCase q +:+ "%")) (accounts db))
    else Sqlite.ORDER_BY email (accounts db) in
  snd (Tools.gcal_resolve_account db query) =
    inr (match (if Js.truthy q
                then head (filter (fun r => email r = q \/ id r = q) found) else None) with
         | Some r =>
             {| Tools.query := q; Tools.matches := [Tools.summary r]; Tools.exact := true;
                Tools.ambiguous := false; Tools.count := 1 |}
         | None =>
             {| Tools.query := q; Tools.matches := Tools.summary <$> found;
                Tools.exact := false; Tools.ambiguous := (1 <? length found)%nat;
                Tools.count := Z.of_nat (length found) |}
         end).
Proof.
  unfold Tools.gcal_resolve_account, Tools.resolve_by_search.
  cbv zeta. rewrite searchAccounts_trimmed.
  set (q := Js.trim (default "" query)).
  unfold mbind, Eff.M_bind, Eff.bind.
  destruct (Js.truthy q).
  - destruct (head _); cbn [snd mret Eff.M_ret Eff.ret]; rewrite ?length_fmap; reflexivity.
  - cbn [snd mret Eff.M_ret Eff.ret]. rewrite length_fmap. reflexivity.
Qed.




(** X11.  When the report of [gcal-resolve_account] is marked exact,
    [resolveAccount] returns, for the same key, an account whose id or email
    is the trimmed key; when only one stored account has that id or email, it
    is the account that the report lists. *)
Theorem gcal_resolve_account_exact db query res :
  snd (Tools.gcal_resolve_account db query) = inr res ->
  Tools.exact res = true ->
  exists row,
    snd (resolveAccount db query) = inr row
    /\ exact_match (Js.trim (default "" query)) row
    /\ ((forall other, other ∈ accounts db ->
           exact_match (Js.trim (default "" query)) other -> other = row) ->
        Tools.matches res = [Tools.summary row]).
Proof.
  set (q := Js.trim (default "" query)).
  rewrite gcal_resolve_account_result. cbv zeta. fold q.
  destruct (Js.truthy q) eqn:Ht; [|intros [= <-]; discriminate].
  assert (q <> "") as Hne by (intros E; rewrite E in Ht; discriminate).
  set (pattern := "%" +:+ Js.toLowerCase q +:+ "%") in *.
  destruct (head (filter (fun r => email r = q \/ id r = q) _)) as [r|] eqn:E;
    [|intros [= <-]; discriminate].
  intros [= <-] _.
  destruct (head_filter_Some (fun r => email r = q \/ id r = q) _ r E) as [Hr1 Hr2].
  apply elem_of_ORDER_BY, list_elem_of_filter in Hr1 as [_ Hr1].
  destruct (head (rows db (SELECT_accounts_WHERE_id_OR_email q q))) as [x|] eqn:Ex.
  - exists x. rewrite (resolveAccount_first_exact db query x Hne Ex).
    destruct (exact_head_Some _ _ _ Ex) as [Hx1 Hx2].
    split; [reflexivity|]. split; [exact Hx2|].
    intros Huniq. cbn [Tools.matches]. rewrite (Huniq r Hr1); [reflexivity|].
    unfold exact_match. tauto.
  - destruct (proj1 (exact_head_None db q) Ex r Hr1). unfold exact_match. tauto.
Qed.

(** X12.  For a blank query [gcal-resolve_account] lists what
    [gcal-list_accounts] lists: its matches are the accounts of that tool,
    one summary for every stored account, and the report is not exact. *)
Theorem gcal_resolve_account_blank db query :
  Js.trim (default "" query) = "" ->
  exists res,
    snd (Tools.gcal_resolve_account db query) = inr res
    /\ Tools.exact res = false
    /\ snd (Tools.gcal_list_accounts db) = inr (Tools.matches res)
    /\ Tools.matches res ≡ₚ Tools.summary <$> accounts db.
Proof.
  intros Hq. rewrite gcal_resolve_account_result. cbv zeta. rewrite Hq.
  cbn [Js.truthy]. eexists. split; [reflexivity|]. split; [reflexivity|].
  split; [reflexivity|]. cbn [Tools.matches].
  apply fmap_Permutation, ORDER_BY_Permutation.
Qed.

End AccountTools.

(** ** Requests to the calendar service *)

Section Requests.

Import Crypto Calendar.

Variable aes256 : Buffer -> Z -> Z.
Variable toString_utf8 : Buffer -> string.
Variable env : string -> option string.
Variable google : Client -> ApiCall -> Js.JsError + JsonValue.

Implicit Types (cfg : CalendarConfig) (db : DB) (account : option string).

Lemma fst_bind {A B} (m : Promise A) (k : A -> Promise B) :
  fst (m ≫= k) = match snd m with
                 | inr a => fst m ++ fst (k a)
                 | inl _ => fst m
                 end.
Proof. destruct m as [t [e|a]]; reflexivity. Qed.

Lemma requests_app (t1 t2 : list Event) :
  Trace.requests (t1 ++ t2) = Trace.requests t1 ++ Trace.requests t2.
Proof. apply omap_app. Qed.

Lemma requests_bind {A B} (m : Promise A) (k : A -> Promise B) :
  Trace.requests (fst m) = [] ->
  (forall a, Trace.requests (fst (k a)) = []) ->
  Trace.requests (fst (m ≫= k)) = [].
Proof.
  intros Hm Hk. rewrite fst_bind. destruct (snd m); [exact Hm|].
  rewrite requests_app, Hm, Hk. reflexivity.
Qed.

Lemma getCalendarClient_requests cfg accountId :
  Trace.requests (fst (getCalendarClient aes256 toString_utf8 env cfg accountId)) = [].
Proof.
  unfold getCalendarClient. apply requests_bind; [reflexivity|].
  intros [cred|]; [|reflexivity].
  apply requests_bind; [|reflexivity].
  destruct (Js.if_truthy (refresh_token cred)); [reflexivity|].
  destruct (dek cfg); [|reflexivity].
  apply requests_bind; reflexivity.
Qed.

Lemma resolveAccount_requests db account :
  Trace.requests (fst (resolveAccount db account)) = [].
Proof.
  unfold resolveAccount.
  destruct (negb _); apply requests_bind; try reflexivity.
  - intros [|x [|y l]]; reflexivity.
  - intros [row|]; [reflexivity|]. apply requests_bind; [reflexivity|].
    intros [|x [|y l]]; reflexivity.
Qed.

Lemma items_or_empty_trace data : fst (items_or_empty data) = [].
Proof.
  destruct data as [| | | | |fields]; try reflexivity.
  cbn [items_or_empty]. destruct (list_find _ fields) as [[i [key items]]|]; reflexivity.
Qed.

(** A continuation that calls nothing adds no request. *)
Lemma requests_then {A B} (m : Promise A) (k : A -> Promise B) :
  (forall a, fst (k a) = []) ->
  Trace.requests (fst (m ≫= k)) = Trace.requests (fst m).
Proof.
  intros Hk. rewrite fst_bind. destruct (snd m); [reflexivity|].
  rewrite Hk, app_nil_r. reflexivity.
Qed.

Lemma requests_call_then cfg accountId call {A} (k : JsonValue -> Promise A) :
  (forall data, fst (k data) = []) ->
  Trace.requests
    (fst (getCalendarClient aes256 toString_utf8 env cfg accountId ≫= fun calendar =>
          request google calendar call ≫= k))
  = Trace.request_as (snd (getCalendarClient aes256 toString_utf8 env cfg accountId)) call.
Proof.
  intros Hk. rewrite fst_bind.
  destruct (snd (getCalendarClient _ _ _ cfg accountId)) as [e|auth] eqn:E.
  - apply getCalendarClient_requests.
  - rewrite requests_app, getCalendarClient_requests, fst_bind. cbn [fst snd request].
    destruct (google auth call); [reflexivity|]. rewrite Hk. reflexivity.
Qed.

Lemma requests_call cfg accountId call :
  Trace.requests
    (fst (getCalendarClient aes256 toString_utf8 env cfg accountId ≫= fun calendar =>
          request google calendar call))
  = Trace.request_as (snd (getCalendarClient aes256 toString_utf8 env cfg accountId)) call.
Proof.
  rewrite fst_bind.
  destruct (snd (getCalendarClient _ _ _ cfg accountId)) as [e|auth] eqn:E.
  - apply getCalendarClient_requests.
  - rewrite requests_app, getCalendarClient_requests. reflexivity.
Qed.

(** X13.  The requests that the functions of calendar.ts send.  Each
    function sends at most one request: none when the client of the account
    cannot be built, and otherwise one, authenticated as the client that
    [getCalendarClient] returns for that account, with the method and
    parameters of the function ([listEvents] asks for 50 results when
    [maxResults] is absent or zero).  In read-only mode the three writing
    functions send none. *)
Theorem requests_of_calendar cfg accountId :
  (Trace.requests (fst (listCalendars aes256 toString_utf8 env google cfg accountId))
   = Trace.request_as (snd (getCalendarClient aes256 toString_utf8 env cfg accountId))
       calendarList_list)
  /\
  (forall calendarId opts,
     Trace.requests
       (fst (listEvents aes256 toString_utf8 env google cfg accountId calendarId opts))
     = Trace.request_as (snd (getCalendarClient aes256 toString_utf8 env cfg accountId))
         (events_list calendarId (q opts) (timeMin opts) (timeMax opts)
            (maxResults_or_50 (maxResults opts))))
  /\
  (forall calendarId eventId,
     Trace.requests
       (fst (getEvent aes256 toString_utf8 env google cfg accountId calendarId eventId))
     = Trace.request_as (snd (getCalendarClient aes256 toString_utf8 env cfg accountId))
         (events_get calendarId eventId))
  /\
  (forall calendarId event,
     Trace.requests
       (fst (createEvent aes256 toString_utf8 env google cfg accountId calendarId event))
     = if is_readOnly cfg then []
       else Trace.request_as (snd (getCalendarClient aes256 toString_utf8 env cfg accountId))
              (events_insert calendarId event))
  /\
  (forall calendarId eventId patch,
     Trace.requests
       (fst (updateEvent aes256 toString_utf8 env google cfg accountId calendarId eventId patch))
     = if is_readOnly cfg then []
       else Trace.request_as (snd (getCalendarClient aes256 toString_utf8 env cfg accountId))
              (events_patch calendarId eventId patch))
  /\
  (forall calendarId eventId,
     Trace.requests
       (fst (deleteEvent aes256 toString_utf8 env google cfg accountId calendarId eventId))
     = if is_readOnly cfg then []
       else Trace.request_as (snd (getCalendarClient aes256 toString_utf8 env cfg accountId))
              (events_delete calendarId eventId)).
Proof.
  unfold listCalendars, listEvents, getEvent, createEvent, updateEvent, deleteEvent.
  repeat split; intros; try destruct (is_readOnly cfg); try reflexivity;
    first [apply requests_call_then; first [reflexivity | apply items_or_empty_trace]
          | apply requests_call].
Qed.

End Requests.

(** ** The event tools *)

Section EventTools.

Import Crypto Calendar.

Variable aes256 : Buffer -> Z -> Z.
Variable toString_utf8 : Buffer -> string.
Variable env : string -> option string.
Variable google : Client -> ApiCall -> Js.JsError + JsonValue.
Variable db : DB.
Variable dek : option Buffer.
Variable readOnly : option bool.

Implicit Types (account : option string).

Lemma requests_after_resolveAccount account {A} (k : AccountRow -> Promise A) :
  Trace.requests (fst (resolveAccount db account ≫= k))
  = match snd (resolveAccount db account) with
    | inr acc => Trace.requests (fst (k acc))
    | inl _ => []
    end.
Proof.
  rewrite fst_bind. destruct (snd (resolveAccount db account)).
  - apply resolveAccount_requests.
  - rewrite requests_app, resolveAccount_requests. reflexivity.
Qed.

Lemma is_readOnly_cfg :
  is_readOnly (Tools.cfg db dek readOnly) = default false readOnly.
Proof. reflexivity. Qed.

(** X14.  The requests that the event tools send.  A tool sends no
    request when the account does not resolve or the client of the resolved
    account cannot be built, and none from a writing tool when [buildTools]
    was given [readOnly = true].  Otherwise it sends one request,
    authenticated as the client of the account that [resolveAccount] returns,
    and always on the calendar ["primary"]. *)
Theorem requests_of_event_tools account :
  let as_account call :=
    match snd (resolveAccount db account) with
    | inr acc =>
        Trace.request_as
          (snd (getCalendarClient aes256 toString_utf8 env (Tools.cfg db dek readOnly) (id acc)))
          call
    | inl _ => []
    end in
  (forall opts,
     Trace.requests
       (fst (Tools.gcal_search_events aes256 toString_utf8 env google db dek readOnly
               account opts))
     = as_account (events_list "primary" (q opts) (timeMin opts) (timeMax opts)
                     (maxResults_or_50 (maxResults opts))))
  /\
  (forall eventId,
     Trace.requests
       (fst (Tools.gcal_get_event aes256 toString_utf8 env google db dek readOnly
               account eventId))
     = as_account (events_get "primary" eventId))
  /\
  (forall input,
     Trace.requests
       (fst (Tools.gcal_create_event aes256 toString_utf8 env google db dek readOnly
               account input))
     = if default false readOnly then []
       else as_account (events_insert "primary" (Tools.event_of input)))
  /\
  (forall eventId patch,
     Trace.requests
       (fst (Tools.gcal_update_event aes256 toString_utf8 env google db dek readOnly
               account eventId patch))
     = if default false readOnly then []
       else as_account (events_patch "primary" eventId (JObject patch)))
  /\
  (forall eventId,
     Trace.requests
       (fst (Tools.gcal_delete_event aes256 toString_utf8 env google db dek readOnly
               account eventId))
     = if default false readOnly then []
       else as_account (events_delete "primary" eventId)).
Proof.
  intros as_account. unfold as_account.
  unfold Tools.gcal_search_events, Tools.gcal_get_event, Tools.gcal_create_event,
    Tools.gcal_update_event, Tools.gcal_delete_event.
  repeat split; intros; rewrite requests_after_resolveAccount;
    destruct (snd (resolveAccount db account)) as [e|acc];
    try (destruct (default false readOnly); reflexivity);
    try (rewrite requests_then by (intros []; reflexivity));
    unfold listEvents, getEvent, createEvent, updateEvent, deleteEvent;
    rewrite ?is_readOnly_cfg; try destruct (default false readOnly); try reflexivity;
    first [apply requests_call_then; first [reflexivity | apply items_or_empty_trace]
          | apply requests_call].
Qed.

(** X15.  With [readOnly = true] the tools that create, update and delete
    events only resolve the account: the queries of [resolveAccount] are all
    they do, its error is rethrown when it fails, and "Server is in read-only
    mode" is thrown when it succeeds, whatever the arguments. *)
Theorem write_tools_readOnly account :
  readOnly = Some true ->
  let refused : Promise JsonValue :=
    (fst (resolveAccount db account),
     match snd (resolveAccount db account) with
     | inl e => inl e
     | inr _ => inl ReadOnlyError
     end) in
  (forall input,
     Tools.gcal_create_event aes256 toString_utf8 env google db dek readOnly account input
     = refused)
  /\
  (forall eventId patch,
     Tools.gcal_update_event aes256 toString_utf8 env google db dek readOnly account
       eventId patch
     = refused)
  /\
  (forall eventId,
     Tools.gcal_delete_event aes256 toString_utf8 env google db dek readOnly account eventId
     = refused).
Proof.
  intros -> refused. unfold refused.
  unfold Tools.gcal_create_event, Tools.gcal_update_event, Tools.gcal_delete_event.
  destruct (resolveAccount db account) as [t [e|acc]]; repeat split; intros;
    cbn; rewrite ?app_nil_r; reflexivity.
Qed.

End EventTools.

(** ** More on the envelope *)

Section Sealing.

Import Crypto Calendar.

Variable aes256 : Buffer -> Z -> Z.

Implicit Types (g : Rng) (key plaintext : Buffer) (aad : option Buffer).

Lemma check_key_iv_random g key :
  check_key_iv key (fst (randomBytes 12 g)) =
    if decide (length key = 32%nat) then None else Some ERR_CRYPTO_INVALID_KEYLEN.
Proof.
  unfold check_key_iv. rewrite length_randomBytes.
  destruct (decide (length key = 32%nat)) as [->|Hne]; [reflexivity|].
  apply Nat.eqb_neq in Hne. rewrite Hne. reflexivity.
Qed.

(** What [encryptAesGcm] returns under a key of the right length. *)
Lemma encryptAesGcm_sealed g key plaintext aad :
  length key = 32%nat ->
  fst (encryptAesGcm aes256 g key plaintext aad) =
    inr {| ct := gctr aes256 key (g <$> seq 0 12) 0 plaintext;
           iv := g <$> seq 0 12;
           tag := gcm_tag aes256 key (g <$> seq 0 12) (default [] aad)
                    (gctr aes256 key (g <$> seq 0 12) 0 plaintext) |}.
Proof.
  intros Hkey. unfold encryptAesGcm, createCipheriv.
  rewrite check_key_iv_random, decide_True by exact Hkey.
  unfold Cipher_getAuthTag, Cipher_update, Cipher_final.
  destruct aad; cbn -[gcm_tag gctr seq]; rewrite !app_nil_r; reflexivity.
Qed.

(** What [decryptAesGcm] returns for a tag of full length. *)
Lemma decryptAesGcm_full_tag key iv tag ct aad :
  length key = 32%nat -> iv <> [] -> length tag = 16%nat ->
  decryptAesGcm aes256 key iv tag ct aad =
    if decide (gcm_tag aes256 key iv (default [] aad) ct = tag)
    then inr (gctr aes256 key iv 0 ct) else inl AuthenticationError.
Proof.
  intros Hkey Hiv Htag. unfold decryptAesGcm, createDecipheriv, check_key_iv.
  rewrite Hkey. destruct iv as [|b iv]; [contradiction|].
  cbn [negb Nat.eqb length].
  unfold Decipher_setAuthTag. rewrite Htag.
  cbn [valid_tag_length Nat.eqb Nat.leb orb andb].
  unfold Decipher_final, Decipher_update.
  destruct aad as [a|]; cbn -[gcm_tag gctr]; rewrite Htag;
    rewrite (take_ge (gcm_tag _ _ _ _ _)) by (rewrite length_gcm_tag; lia);
    destruct (decide _); rewrite ?app_nil_r; reflexivity.
Qed.


(** X16.  [encryptAesGcm] throws "Invalid key length" for a key that is
    not 32 bytes long; for a 32-byte key it returns a 12-byte [iv], a 16-byte
    [tag] and a ciphertext as long as the plaintext. *)
Theorem encryptAesGcm_shape g key plaintext aad :
  (length key <> 32%nat ->
   fst (encryptAesGcm aes256 g key plaintext aad) = inl ERR_CRYPTO_INVALID_KEYLEN)
  /\
  (length key = 32%nat ->
   exists sealed,
     fst (encryptAesGcm aes256 g key plaintext aad) = inr sealed
     /\ length (iv sealed) = 12%nat
     /\ length (tag sealed) = 16%nat
     /\ length (ct sealed) = length plaintext).
Proof.
  split; intros Hkey.
  - unfold encryptAesGcm, createCipheriv.
    rewrite check_key_iv_random, decide_False by exact Hkey. reflexivity.
  - rewrite (encryptAesGcm_sealed g key plaintext aad Hkey).
    eexists. split; [reflexivity|]. cbn [iv tag ct].
    rewrite length_gcm_tag, length_gctr, length_fmap, length_seq. auto.
Qed.

(** X17.  Every call of [encryptAesGcm] draws 12 bytes from the random
    source, whether it succeeds or not: the [iv] of a first encryption is the
    first 12 bytes of the source, the [iv] of the next one the 12 bytes that
    follow, and after two calls the source has advanced by 24 bytes. *)
Theorem encryptAesGcm_consumes_random g key1 key2 plaintext1 plaintext2 aad1 aad2 :
  let first := encryptAesGcm aes256 g key1 plaintext1 aad1 in
  let second := encryptAesGcm aes256 (snd first) key2 plaintext2 aad2 in
  (forall sealed, fst first = inr sealed -> iv sealed = g <$> seq 0 12)
  /\ (forall sealed, fst second = inr sealed -> iv sealed = g <$> seq 12 12)
  /\ (forall i, snd second i = g (24 + i)%nat).
Proof.
  cbv zeta. unfold encryptAesGcm, createCipheriv. split; [|split].
  - intros sealed. destruct (check_key_iv _ _); [discriminate|]. intros [= <-]. reflexivity.
  - intros sealed. destruct (check_key_iv key2 _); [discriminate|]. intros [= <-].
    reflexivity.
  - intros i. reflexivity.
Qed.

(** X18.  [decryptAesGcm] accepts no other 16-byte tag than the one that
    [encryptAesGcm] produced: with the key, [iv], ciphertext and associated
    data of an encryption and a different tag of 16 bytes, it throws the
    authentication error. *)
Theorem decryptAesGcm_wrong_tag g key plaintext aad sealed (forged : Buffer) :
  fst (encryptAesGcm aes256 g key plaintext aad) = inr sealed ->
  length forged = 16%nat ->
  forged <> tag sealed ->
  decryptAesGcm aes256 key (iv sealed) forged (ct sealed) aad = inl AuthenticationError.
Proof.
  intros Henc Hlen Hne.
  destruct (decide (length key = 32%nat)) as [Hkey|Hkey].
  - rewrite (encryptAesGcm_sealed g key plaintext aad Hkey) in Henc.
    injection Henc as <-. cbn [iv tag ct] in *.
    rewrite decryptAesGcm_full_tag; [|exact Hkey|discriminate|exact Hlen].
    rewrite decide_False; [reflexivity|]. congruence.
  - unfold encryptAesGcm, createCipheriv in Henc.
    rewrite check_key_iv_random, decide_False in Henc by exact Hkey. discriminate.
Qed.

End Sealing.

Section SealedCredentials.

Import Crypto Calendar.

Variable aes256 : Buffer -> Z -> Z.
Variable toString_utf8 : Buffer -> string.
Variable env : string -> option string.
Variable scrypt : string -> Buffer -> Z -> Z -> Z -> Z -> Z -> Js.JsError + Buffer.

Implicit Types (cfg : CalendarConfig) (cred : CredRow).

(** X19.  A refresh token sealed by [encryptAesGcm] under the DEK with
    the associated data of the account, and stored in the three encrypted
    columns of the account's row (the plaintext column being empty), is what
    [getCalendarClient] builds the client around. *)
Theorem getCalendarClient_sealed_token cfg accountId cred (g : Rng) (key plaintext : Buffer)
    (sealed : Sealed) :
  fst (encryptAesGcm aes256 g key plaintext (Some (aad_of accountId))) = inr sealed ->
  credentials (db cfg) !! accountId = Some cred ->
  Js.if_truthy (refresh_token cred) = None ->
  refresh_token_ct cred = Some (ct sealed) ->
  refresh_token_iv cred = Some (iv sealed) ->
  refresh_token_tag cred = Some (tag sealed) ->
  dek cfg = Some key ->
  snd (getCalendarClient aes256 toString_utf8 env cfg accountId)
  = inr (client_of env (toString_utf8 plaintext)).
Proof.
  intros Henc Hrow Htok Hct Hiv Htag Hdek.
  rewrite (getCalendarClient_encrypted aes256 toString_utf8 env cfg accountId cred key
             Hrow Htok Hdek).
  cbn [snd call_decryptAesGcm]. rewrite Hct, Hiv, Htag.
  destruct (decide (length key = 32%nat)) as [Hkey|Hkey].
  - rewrite (encryptAesGcm_sealed aes256 g key plaintext _ Hkey) in Henc.
    injection Henc as <-. cbn [iv tag ct default].
    rewrite decryptAesGcm_full_tag;
      [|exact Hkey|discriminate|apply length_gcm_tag].
    cbn [default]. rewrite decide_True by reflexivity.
    rewrite gctr_involutive. reflexivity.
  - unfold encryptAesGcm, createCipheriv in Henc.
    rewrite check_key_iv_random, decide_False in Henc by exact Hkey. discriminate.
Qed.

(** X20.  The associated data of the refresh tokens of two different
    accounts differ. *)
Theorem aad_of_distinct (a b : string) : a <> b -> aad_of a <> aad_of b.
Proof. intros Hne Heq. apply Hne, aad_of_inj, Heq. Qed.

(** X21.  For parameters [N] and [r] that are positive with
    [1024 * N * r] within [2^53], where the arithmetic on numbers is exact,
    [deriveKek] calls the KDF once or twice; the ceiling of the second call
    is exactly four times that of the first, and the outcome of [deriveKek],
    key or error, is the outcome of the last call. *)
Theorem deriveKek_ceilings (password : string) (salt : Buffer) (params : KdfParams) :
  0 < N params -> 0 < r params -> 1024 * N params * r params <= 2 ^ 53 ->
  let first := Z.max (64 * 1024 * 1024) (2 * (128 * N params * r params)) in
  exists maxmems,
    fst (deriveKek scrypt password salt params) = maxmems
    /\ (maxmems = [first] \/ maxmems = [first; 4 * first])
    /\ snd (deriveKek scrypt password salt params)
       = scrypt password salt (dkLen params) (N params) (r params) (p params)
           (List.last maxmems first).
Proof.
  intros HN Hr Hbound first.
  destruct (deriveKek_ceilings_exact params HN Hr Hbound) as [E1 E2].
  assert (Z.max (4 * (64 * 1024 * 1024)) (8 * (128 * N params * r params)) = 4 * first)
    as E3 by (unfold first; lia).
  unfold deriveKek, tryOnce, Eff.catch. rewrite E1, E2, E3. fold first.
  destruct (scrypt password salt (dkLen params) (N params) (r params) (p params) first)
    as [e|key] eqn:E.
  - destruct (memory_limit_exceeded e).
    + eexists. split; [reflexivity|]. split; [right; reflexivity|]. reflexivity.
    + eexists. split; [reflexivity|]. split; [left; reflexivity|]. cbn. congruence.
  - eexists. split; [reflexivity|]. split; [left; reflexivity|]. cbn. congruence.
Qed.

End SealedCredentials.

(** ** More on transactions and the schema *)

Section Nesting.

Import Db.

Context {Store : Type}.

Implicit Types (s w : Store) (c : Conn Store).

(** X22.  Whatever [fn] does, [tx] leaves the connection as it found it
    with respect to open transactions: started without one it leaves none
    open, and started inside one (where it fails) it leaves that one open. *)
Theorem tx_keeps_transaction_state {T} (fn : Task Store T) c :
  txn (snd (tx fn c)) = txn c.
Proof.
  unfold tx. destruct c as [s [w|]]; [reflexivity|].
  change (exec BEGIN_IMMEDIATE {| committed := s; txn := None |})
    with (inr (A := Js.JsError) tt, {| committed := s; txn := Some s |}).
  cbv iota beta.
  destruct (fn _) as [[e|out] c2].
  - rewrite ROLLBACK_closes. reflexivity.
  - destruct c2 as [s2 [w2|]]; reflexivity.
Qed.

(** X23.  [tx] does not nest.  A function that awaits some statements and
    then calls [tx] again, run by [tx] on a connection without an open
    transaction, always fails, and nothing it did is persisted: when its
    statements pass, the inner [tx] throws "cannot start a transaction within
    a transaction" without running its own function; in either case the outer
    [tx] rolls back and rethrows, and no transaction stays open. *)
Theorem tx_nested {T U} (body : Body Store U) (fn : U -> Task Store T) s :
  tx (fun c =>
        match perform body c with
        | (inr out, c') => tx (fn out) c'
        | (inl e, c') => (inl e, c')
        end)
     {| committed := s; txn := None |}
  = (inl match effect body s with
         | inl e => e
         | inr _ => SqliteError "cannot start a transaction within a transaction"
         end,
     {| committed := s; txn := None |}).
Proof.
  unfold tx at 1.
  change (exec BEGIN_IMMEDIATE {| committed := s; txn := None |})
    with (inr (A := Js.JsError) tt, {| committed := s; txn := Some s |}).
  cbv iota beta.
  pose proof (perform_in_transaction body s s) as H.
  destruct (effect body s) as [e|[out w]].
  - destruct H as (c & -> & Hc). rewrite ROLLBACK_closes, Hc. reflexivity.
  - rewrite H. reflexivity.
Qed.

Lemma tx_commits {T} (body : Body Store T) s out s' :
  effect body s = inr (out, s') ->
  tx (perform body) {| committed := s; txn := None |}
  = (inr out, {| committed := s'; txn := None |}).
Proof.
  intros Heff. pose proof (perform_in_transaction body s s) as H.
  rewrite Heff in H. unfold tx.
  change (exec BEGIN_IMMEDIATE {| committed := s; txn := None |})
    with (inr (A := Js.JsError) tt, {| committed := s; txn := Some s |}).
  cbv iota beta. rewrite H. reflexivity.
Qed.

End Nesting.

Section Migration.

Import Db.

Implicit Types (s : Schema).

Lemma migrate_result s :
  migrate {| committed := s; txn := None |}
  = (inr tt, {| committed := after_migrate s; txn := None |}).
Proof.
  unfold migrate. apply tx_commits. unfold migrate_body.
  cbn [effect CREATE_TABLE_IF_NOT_EXISTS]. unfold SELECT_encryption_meta.
  cbn [tables encryption_meta].
  rewrite decide_True by set_solver.
  destruct (encryption_meta s) as [em|] eqn:E; cbn [effect].
  - unfold after_migrate. rewrite E. reflexivity.
  - unfold INSERT_encryption_meta. cbn [tables encryption_meta].
    rewrite decide_True by set_solver.
    unfold after_migrate. rewrite E. reflexivity.
Qed.

(** X24.  On a connection without an open transaction [migrate] always
    succeeds and commits: afterwards the tables are those that existed before
    and the four tables of the schema, an existing row of [encryption_meta]
    is kept, and a missing one is created unlocked, at version 1, with the
    KDF ["scrypt"]. *)
Theorem migrate_schema s :
  exists s',
    migrate {| committed := s; txn := None |} = (inr tt, {| committed := s'; txn := None |})
    /\ (forall t, t ∈ tables s' <->
          t ∈ tables s \/ t ∈ ["accounts"; "credentials"; "encryption_meta"; "settings"])
    /\ (forall em, encryption_meta s = Some em -> encryption_meta s' = Some em)
    /\ (encryption_meta s = None ->
        encryption_meta s' =
          Some {| is_locked := 0; version := 1; kdf := "scrypt"; kdf_salt := None;
                  kdf_params_json := None; dek_ct := None; dek_iv := None;
                  dek_tag := None; password_hint := None |}).
Proof.
  exists (after_migrate s). split; [apply migrate_result|].
  split; [|split].
  - intros t. cbn [after_migrate tables].
    rewrite !elem_of_union, !elem_of_singleton, !elem_of_cons, elem_of_nil. tauto.
  - intros em E. cbn [after_migrate encryption_meta]. rewrite E. reflexivity.
  - intros E. cbn [after_migrate encryption_meta]. rewrite E. reflexivity.
Qed.

(** X25.  Migrating twice is the same as migrating once. *)
Theorem migrate_idempotent s :
  migrate (snd (migrate {| committed := s; txn := None |}))
  = migrate {| committed := s; txn := None |}.
Proof.
  rewrite !migrate_result. cbn [snd]. rewrite migrate_result.
  assert (after_migrate (after_migrate s) = after_migrate s) as ->; [|reflexivity].
  unfold after_migrate. cbn [tables encryption_meta default from_option]. f_equal.
  apply set_eq. intros t.
  rewrite !elem_of_union, !elem_of_singleton. tauto.
Qed.

End Migration.

(** ** The further properties at concrete inputs *)

Section FurtherInstances.

Import Crypto Calendar Resolver Examples.




Lemma two_accounts_ascii :
  Forall (fun account => ascii_account account = true) (accounts two_accounts).
Proof. repeat constructor. Qed.


(** X3 on the two accounts: the key ["ab"] is no id and no email, and the
    LIKE query selects account 2 alone. *)
Lemma resolveAccount_sound_witness :
  Js.is_ascii (Js.trim (default "" (Some "ab"))) = true
  /\ Forall (fun account => ascii_account account = true) (accounts two_accounts)
  /\ resolveAccount two_accounts (Some "ab") =
       ([Db_get (SELECT_accounts_WHERE_id_OR_email "ab" "ab");
         Db_all (SELECT_accounts_WHERE_LIKE "%ab%" "%ab%")], inr account_2)
  /\ account_2 ∈ accounts two_accounts
  /\ ((Js.trim (default "" (Some "ab")) = "" /\ accounts two_accounts = [account_2])
      \/ exact_match (Js.trim (default "" (Some "ab"))) account_2
      \/ ((forall other, other ∈ accounts two_accounts ->
             ~ exact_match (Js.trim (default "" (Some "ab"))) other)
          /\ filter (like_match ("%" +:+ Js.toLowerCase (Js.trim (default "" (Some "ab")))
                                 +:+ "%"))
               (accounts two_accounts) = [account_2])).
Proof.
  split; [reflexivity|]. split; [exact two_accounts_ascii|]. split; [reflexivity|].
  exact (resolveAccount_sound two_accounts (Some "ab") account_2 _ eq_refl
           two_accounts_ascii eq_refl).
Defined.






(** X11 on the two accounts and the full email of account 1. *)
Lemma gcal_resolve_account_exact_witness :
  snd (Tools.gcal_resolve_account two_accounts (Some "a@x.com")) =
    inr {| Tools.query := "a@x.com"; Tools.matches := [Tools.summary account_1];
           Tools.exact := true; Tools.ambiguous := false; Tools.count := 1 |}
  /\ exists row,
       snd (resolveAccount two_accounts (Some "a@x.com")) = inr row
       /\ exact_match "a@x.com" row
       /\ ((forall other, other ∈ accounts two_accounts ->
              exact_match "a@x.com" other -> other = row) ->
           [Tools.summary account_1] = [Tools.summary row]).
Proof.
  split; [reflexivity|].
  exact (gcal_resolve_account_exact two_accounts (Some "a@x.com") _ eq_refl eq_refl).
Defined.

(** X12 on the two accounts and a query of blanks. *)
Lemma gcal_resolve_account_blank_witness :
  Js.trim (default "" (Some "  ")) = "" /\
  exists res,
    snd (Tools.gcal_resolve_account two_accounts (Some "  ")) = inr res
    /\ Tools.exact res = false
    /\ snd (Tools.gcal_list_accounts two_accounts) = inr (Tools.matches res)
    /\ Tools.matches res ≡ₚ Tools.summary <$> accounts two_accounts.
Proof.
  split; [reflexivity|].
  exact (gcal_resolve_account_blank two_accounts (Some "  ") eq_refl).
Defined.

(** X15 on the example store: the key ["ab"] resolves to account 2, and the
    delete tool stops there. *)
Lemma write_tools_readOnly_witness :
  Some true = Some true /\
  Tools.gcal_delete_event aes256_zero_key String.string_of_list_byte no_env silent_service
    store (Some zero_key) (Some true) (Some "ab") "event-1"
  = ([Db_get (SELECT_accounts_WHERE_id_OR_email "ab" "ab");
      Db_all (SELECT_accounts_WHERE_LIKE "%ab%" "%ab%")], inl ReadOnlyError).
Proof.
  split; [reflexivity|].
  exact (proj2 (proj2 (write_tools_readOnly aes256_zero_key String.string_of_list_byte
                         no_env silent_service store (Some zero_key) (Some true)
                         (Some "ab") eq_refl)) "event-1").
Defined.

(** X16 on test case 14. *)
Lemma encryptAesGcm_shape_witness :
  length zero_key = 32%nat /\
  exists sealed,
    fst (encryptAesGcm aes256_zero_key zero_rng zero_key zero_block None) = inr sealed
    /\ length (iv sealed) = 12%nat
    /\ length (tag sealed) = 16%nat
    /\ length (ct sealed) = length zero_block.
Proof.
  split; [reflexivity|].
  exact (proj2 (encryptAesGcm_shape aes256_zero_key zero_rng zero_key zero_block None)
           eq_refl).
Defined.

(** X18 on test case 14, with sixteen bytes [01] as the other tag. *)
Lemma decryptAesGcm_wrong_tag_witness :
  fst (encryptAesGcm aes256_zero_key zero_rng zero_key zero_block None) =
    inr {| ct := be_bytes 16 0xcea7403d4d606b6e074ec5d3baf39d18;
           iv := replicate 12 Byte.x00;
           tag := be_bytes 16 0xd0d1c8a799996bf0265b98b5d48ab919 |}
  /\ length some_tag = 16%nat
  /\ some_tag <> be_bytes 16 0xd0d1c8a799996bf0265b98b5d48ab919
  /\ decryptAesGcm aes256_zero_key zero_key (replicate 12 Byte.x00) some_tag
       (be_bytes 16 0xcea7403d4d606b6e074ec5d3baf39d18) None
     = inl AuthenticationError.
Proof.
  assert (fst (encryptAesGcm aes256_zero_key zero_rng zero_key zero_block None) =
            inr {| ct := be_bytes 16 0xcea7403d4d606b6e074ec5d3baf39d18;
                   iv := replicate 12 Byte.x00;
                   tag := be_bytes 16 0xd0d1c8a799996bf0265b98b5d48ab919 |}) as H1
    by (vm_compute; reflexivity).
  assert (some_tag <> be_bytes 16 0xd0d1c8a799996bf0265b98b5d48ab919) as H3
    by (vm_compute; discriminate).
  split; [exact H1|]. split; [reflexivity|]. split; [exact H3|].
  exact (decryptAesGcm_wrong_tag aes256_zero_key zero_rng zero_key zero_block None _
           some_tag H1 eq_refl H3).
Defined.

(** X19 on the store that holds the sealed token of account ["5"]. *)
Lemma getCalendarClient_sealed_token_witness :
  fst (encryptAesGcm aes256_zero_key zero_rng zero_key token_bytes (Some (aad_of "5")))
    = inr sealed_token
  /\ credentials (db cfg_sealed) !! "5" = Some cred_sealed
  /\ Js.if_truthy (refresh_token cred_sealed) = None
  /\ dek cfg_sealed = Some zero_key
  /\ snd (getCalendarClient aes256_zero_key String.string_of_list_byte no_env cfg_sealed "5")
     = inr (client_of no_env "1//sealed").
Proof.
  assert (fst (encryptAesGcm aes256_zero_key zero_rng zero_key token_bytes
                 (Some (aad_of "5"))) = inr sealed_token) as H1
    by (vm_compute; reflexivity).
  split; [exact H1|]. split; [reflexivity|]. split; [reflexivity|]. split; [reflexivity|].
  exact (getCalendarClient_sealed_token aes256_zero_key String.string_of_list_byte no_env
           cfg_sealed "5" cred_sealed zero_rng zero_key token_bytes sealed_token
           H1 eq_refl eq_refl eq_refl eq_refl eq_refl eq_refl).
Defined.

(** X21 on a derivation estimated at 16 MiB that needs 100 MiB: the
    ceilings are 64 MiB and 256 MiB. *)
Lemma deriveKek_ceilings_witness :
  (0 < N params_16MiB /\ 0 < r params_16MiB /\
   1024 * N params_16MiB * r params_16MiB <= 2 ^ 53) /\
  exists maxmems,
    fst (deriveKek scrypt_100MiB "pw" [] params_16MiB) = maxmems
    /\ (maxmems = [64 * 1024 * 1024] \/
        maxmems = [64 * 1024 * 1024; 4 * (64 * 1024 * 1024)])
    /\ snd (deriveKek scrypt_100MiB "pw" [] params_16MiB)
       = scrypt_100MiB "pw" [] 32 16384 8 1 (List.last maxmems (64 * 1024 * 1024)).
Proof.
  assert (0 < N params_16MiB) as HN by reflexivity.
  assert (0 < r params_16MiB) as Hr by reflexivity.
  assert (1024 * N params_16MiB * r params_16MiB <= 2 ^ 53) as Hbound
    by (vm_compute; discriminate).
  split; [auto|].
  exact (deriveKek_ceilings scrypt_100MiB "pw" [] params_16MiB HN Hr Hbound).
Defined.

(** X20 on the accounts ["1"] and ["2"]. *)
Lemma aad_of_distinct_witness :
  "1" <> "2" /\ aad_of "1" <> aad_of "2".
Proof.
  assert ("1" <> "2") as H by discriminate.
  split; [exact H|]. exact (aad_of_distinct "1" "2" H).
Defined.

End FurtherInstances.
